(** * Ingestion pipeline: step-progression timer, pause/resume accounting, part planning

    Shallow embedding of [App.jsx] (the version with multipart-upload
    initiation) and of the status logic shared with [ProgressPanel.jsx].

    Modelling conventions.
    - A JavaScript number is an exact rational ([Q]): arithmetic is the
      mathematical one, IEEE-754 rounding is outside the model.  Equalities
      between computed numbers are therefore stated with [==] ([Qeq]).
    - [Math.min], [Math.max] and [Math.ceil] are [Qmin], [Qmax] and
      [Math_ceil] (the integer ceiling [Qceiling], as a number).
    - [performance.now()] is an input: every handler that reads the clock takes
      the reading as an argument.  [tick] reads the clock twice (once on entry,
      once when it advances to the next step), so it takes two readings.
    - React state updates issued by one handler are applied together; after the
      handler the component re-renders and the [useEffect] whose dependencies
      are [processing], [paused] and [currentStepIndex] is re-run when one of
      them changed ([commit]).
    - The browser's animation-frame callback list is part of the state
      ([frameQueue]); a callback is the [tick] closure together with the
      [currentStepIndex] and [step] it captured.
    - The network exchange started by [handleFile] ([initiateUpload]) is not
      modelled; [uploadInit] is left out of the state. *)

From Stdlib Require Import QArith Qminmax Qround ZArith List Sorted Lia Lqa Bool
  String.
From Stdlib Require Import Ascii DecimalString.
Import ListNotations.
Local Open Scope string_scope.
Local Open Scope list_scope.
Local Open Scope Q_scope.

(** ** Stage table *)

Record Step : Type := mkStep {
  key : string;
  label : string;
  durationMs : Q
}.

Definition STEP_DEFINITIONS : list Step :=
  [ mkStep "extract" "Extract audio (ffmpeg)" 2000;
    mkStep "transcribe" "Transcribe (Whisper)" 3000;
    mkStep "parse" "Parse fields (AI+rules)" 2000;
    mkStep "merge" "Merge top/bottom" 1500;
    mkStep "screenshots" "Auto screenshots" 1500;
    mkStep "excel" "Build Excel report" 1500 ].

(** [STEP_DEFINITIONS.length] as a number. *)
Definition STEP_COUNT : Z := Z.of_nat (List.length STEP_DEFINITIONS).

(** [STEP_DEFINITIONS[i]]: [undefined] (here [None]) outside the array. *)
Definition stepAt (i : Z) : option Step :=
  if (i <? 0)%Z then None else nth_error STEP_DEFINITIONS (Z.to_nat i).

(** ** Component state *)

Record File : Type := mkFile {
  name : string;
  type : string;
  size : Z
}.

(** What the [tick] closure created by one run of the effect captured. *)
Record TickClosure : Type := mkTick {
  cl_index : Z;
  cl_step : Step
}.

Record App : Type := mkApp {
  (* useState *)
  file : option File;
  errorMessage : string;
  processing : bool;
  paused : bool;
  currentStepIndex : Z;
  stepProgress : Q;
  (* useRef *)
  timerRef : option positive;
  stepStartRef : Q;
  elapsedRef : Q;
  (* whether the last run of the effect returned its cleanup function *)
  effectCleanup : bool;
  (* the browser's pending animation-frame callbacks and its next handle *)
  frameQueue : list (positive * TickClosure);
  nextHandle : positive
}.

Definition set_file (v : option File) (a : App) : App :=
  mkApp v (errorMessage a) (processing a) (paused a) (currentStepIndex a)
        (stepProgress a) (timerRef a) (stepStartRef a) (elapsedRef a)
        (effectCleanup a) (frameQueue a) (nextHandle a).

Definition setErrorMessage (v : string) (a : App) : App :=
  mkApp (file a) v (processing a) (paused a) (currentStepIndex a)
        (stepProgress a) (timerRef a) (stepStartRef a) (elapsedRef a)
        (effectCleanup a) (frameQueue a) (nextHandle a).

Definition setProcessing (v : bool) (a : App) : App :=
  mkApp (file a) (errorMessage a) v (paused a) (currentStepIndex a)
        (stepProgress a) (timerRef a) (stepStartRef a) (elapsedRef a)
        (effectCleanup a) (frameQueue a) (nextHandle a).

Definition setPaused (v : bool) (a : App) : App :=
  mkApp (file a) (errorMessage a) (processing a) v (currentStepIndex a)
        (stepProgress a) (timerRef a) (stepStartRef a) (elapsedRef a)
        (effectCleanup a) (frameQueue a) (nextHandle a).

Definition setCurrentStepIndex (v : Z) (a : App) : App :=
  mkApp (file a) (errorMessage a) (processing a) (paused a) v
        (stepProgress a) (timerRef a) (stepStartRef a) (elapsedRef a)
        (effectCleanup a) (frameQueue a) (nextHandle a).

Definition setStepProgress (v : Q) (a : App) : App :=
  mkApp (file a) (errorMessage a) (processing a) (paused a) (currentStepIndex a)
        v (timerRef a) (stepStartRef a) (elapsedRef a)
        (effectCleanup a) (frameQueue a) (nextHandle a).

Definition set_timerRef (v : option positive) (a : App) : App :=
  mkApp (file a) (errorMessage a) (processing a) (paused a) (currentStepIndex a)
        (stepProgress a) v (stepStartRef a) (elapsedRef a)
        (effectCleanup a) (frameQueue a) (nextHandle a).

Definition set_stepStartRef (v : Q) (a : App) : App :=
  mkApp (file a) (errorMessage a) (processing a) (paused a) (currentStepIndex a)
        (stepProgress a) (timerRef a) v (elapsedRef a)
        (effectCleanup a) (frameQueue a) (nextHandle a).

Definition set_elapsedRef (v : Q) (a : App) : App :=
  mkApp (file a) (errorMessage a) (processing a) (paused a) (currentStepIndex a)
        (stepProgress a) (timerRef a) (stepStartRef a) v
        (effectCleanup a) (frameQueue a) (nextHandle a).

Definition set_effectCleanup (v : bool) (a : App) : App :=
  mkApp (file a) (errorMessage a) (processing a) (paused a) (currentStepIndex a)
        (stepProgress a) (timerRef a) (stepStartRef a) (elapsedRef a)
        v (frameQueue a) (nextHandle a).

Definition set_frameQueue (v : list (positive * TickClosure)) (a : App) : App :=
  mkApp (file a) (errorMessage a) (processing a) (paused a) (currentStepIndex a)
        (stepProgress a) (timerRef a) (stepStartRef a) (elapsedRef a)
        (effectCleanup a) v (nextHandle a).

Definition set_nextHandle (v : positive) (a : App) : App :=
  mkApp (file a) (errorMessage a) (processing a) (paused a) (currentStepIndex a)
        (stepProgress a) (timerRef a) (stepStartRef a) (elapsedRef a)
        (effectCleanup a) (frameQueue a) v.

(** Successive updates read in the order the source performs them. *)
Notation "a |> f" := (f a) (at level 68, left associativity, only parsing).

(** The component right after mounting: the initial [useState]/[useRef]
    values; the effect has run once and returned early ([processing] is
    false), so nothing is scheduled. *)
Definition initial : App :=
  mkApp None EmptyString false false (-1)%Z 0 None 0 0 false [] 1%positive.

(** ** Browser scheduling primitives *)

Definition requestAnimationFrame (cb : TickClosure) (a : App) : positive * App :=
  let h := nextHandle a in
  (h, set_nextHandle (Pos.succ h) (set_frameQueue (frameQueue a ++ [(h, cb)]) a)).

Definition cancelAnimationFrame (h : positive) (a : App) : App :=
  set_frameQueue
    (filter (fun e => negb (Pos.eqb (fst e) h)) (frameQueue a)) a.

(** ** [overallProgress] *)

Definition overallProgress (a : App) : Q :=
  let totalSteps := inject_Z STEP_COUNT in
  let completedSteps := Qmax 0 (inject_Z (currentStepIndex a)) in
  let perStepWeight := 100 / totalSteps in
  let completedPct := completedSteps * perStepWeight in
  let activePct := (stepProgress a / 100) * perStepWeight in
  Qmin 100 (Qmax 0 (completedPct + activePct)).

(** ** Handlers *)

Definition startProcessing (now : Q) (a : App) : App :=
  match file a with
  | None => a
  | Some _ =>
      a |> setProcessing true
        |> setPaused false
        |> setCurrentStepIndex 0
        |> setStepProgress 0
        |> set_elapsedRef 0
        |> set_stepStartRef now
  end.

Definition pause (a : App) : App := setPaused true a.

Definition resume (now : Q) (a : App) : App :=
  if negb (processing a) then a
  else a |> setPaused false |> set_stepStartRef (now - elapsedRef a).

Definition reset (a : App) : App :=
  let a1 :=
    a |> setProcessing false
      |> setPaused false
      |> setCurrentStepIndex (-1)
      |> setStepProgress 0
      |> set_elapsedRef 0
      |> set_stepStartRef 0 in
  let a2 :=
    match timerRef a1 with
    | Some h => cancelAnimationFrame h a1
    | None => a1
    end in
  setErrorMessage EmptyString a2.

(** ** [computePartCount] *)

Definition Math_ceil (x : Q) : Q := inject_Z (Qceiling x).

(** The two locals [partSize] and [count] at the [return] statement. *)
Definition computePartCount_locals (sizeBytes : Q) : Q * Q :=
  let S3_MAX_PARTS := 10000 in
  let partSize := 8 * 1024 * 1024 in
  let count := Math_ceil (sizeBytes / partSize) in
  if Qlt_le_dec S3_MAX_PARTS count then
    let partSize := Math_ceil (sizeBytes / S3_MAX_PARTS) in
    let count := Math_ceil (sizeBytes / partSize) in
    (partSize, count)
  else (partSize, count).

Definition computePartCount (sizeBytes : Q) : Q :=
  snd (computePartCount_locals sizeBytes).

(** ** The step-progression effect *)

(** One run of the animation callback.  [cl] is what the closure captured,
    [now] the clock reading on entry, [now2] the reading taken when the step
    is advanced. *)
Definition tick (cl : TickClosure) (now now2 : Q) (a : App) : App :=
  let a1 := set_elapsedRef (now - stepStartRef a) a in
  let pct := Qmin 100 ((elapsedRef a1 / durationMs (cl_step cl)) * 100) in
  let a2 := setStepProgress pct a1 in
  if Qle_bool 100 pct then
    if (cl_index cl + 1 <? STEP_COUNT)%Z then
      a2 |> setCurrentStepIndex (currentStepIndex a2 + 1)
         |> setStepProgress 0
         |> set_elapsedRef 0
         |> set_stepStartRef now2
    else a2 |> setProcessing false
  else
    let (h, a3) := requestAnimationFrame cl a2 in
    a3 |> set_timerRef (Some h).

(** The cleanup function returned by the effect. *)
Definition effect_cleanup (a : App) : App :=
  match timerRef a with
  | Some h => cancelAnimationFrame h a
  | None => a
  end.

(** The body of the effect. *)
Definition effect (a : App) : App :=
  if negb (processing a) || paused a || (currentStepIndex a <? 0)%Z then
    set_effectCleanup false a
  else
    match stepAt (currentStepIndex a) with
    | None => set_effectCleanup false a
    | Some step =>
        let (h, a1) :=
          requestAnimationFrame (mkTick (currentStepIndex a) step) a in
        a1 |> set_timerRef (Some h) |> set_effectCleanup true
    end.

(** The effect's dependency array. *)
Definition deps (a : App) : bool * bool * Z :=
  (processing a, paused a, currentStepIndex a).

Definition deps_eqb (d e : bool * bool * Z) : bool :=
  Bool.eqb (fst (fst d)) (fst (fst e))
  && Bool.eqb (snd (fst d)) (snd (fst e))
  && (snd d =? snd e)%Z.

(** Re-render after a handler: when a dependency changed, the previous
    cleanup (if any) runs and then the effect runs again. *)
Definition commit (before : bool * bool * Z) (a : App) : App :=
  if deps_eqb before (deps a) then a
  else effect (if effectCleanup a then effect_cleanup a else a).

(** A handler call followed by the re-render it causes. *)
Definition call (h : App -> App) (a : App) : App :=
  commit (deps a) (h a).

(** [setFile(picked); reset()]; the upload initiation that follows is
    left out. *)
Definition handleFile (picked : File) (a : App) : App :=
  reset (set_file (Some picked) a).

(** One animation frame: the browser takes the pending callbacks, runs them,
    and the component re-renders. *)
Definition frame (now now2 : Q) (a : App) : App :=
  let cbs := frameQueue a in
  commit (deps a)
    (fold_left (fun acc e => tick (snd e) now now2 acc) cbs
       (set_frameQueue [] a)).

(** ** Events *)

Inductive Event : Type :=
| EvStart (now : Q)
| EvPause
| EvResume (now : Q)
| EvReset
| EvSelectFile (picked : File)
| EvFrame (now now2 : Q).

Definition dispatch (e : Event) (a : App) : App :=
  match e with
  | EvStart now => call (startProcessing now) a
  | EvPause => call pause a
  | EvResume now => call (resume now) a
  | EvReset => call reset a
  | EvSelectFile picked => call (handleFile picked) a
  | EvFrame now now2 => frame now now2 a
  end.

Definition run (es : list Event) (a : App) : App :=
  fold_left (fun acc e => dispatch e acc) es a.

(** States the component can be in. *)
Inductive Reachable : App -> Prop :=
| Reachable_initial : Reachable initial
| Reachable_dispatch e a : Reachable a -> Reachable (dispatch e a).

(** ** The buttons *)

Definition runDisabled (a : App) : bool :=
  match file a with None => true | Some _ => processing a end.

Definition pauseDisabled (a : App) : bool :=
  negb (processing a) || paused a.

Definition resumeDisabled (a : App) : bool :=
  negb (processing a) || negb (paused a).

Definition click (disabled : App -> bool) (e : Event) (a : App) : App :=
  if disabled a then a else dispatch e a.

(** ** Status *)

Definition stepStatus (a : App) (index : Z) : string :=
  if (currentStepIndex a =? -1)%Z then "idle"
  else if (index <? currentStepIndex a)%Z then "done"
  else if (index =? currentStepIndex a)%Z then
    if processing a then (if paused a then "paused" else "active") else "done"
  else "pending".

Inductive Status : Type := NotStarted | Running | Paused | Completed.

(** The status of the run as the specification names it, read off the three
    state variables the way [stepStatus] and the buttons read them. *)
Definition status (a : App) : Status :=
  if processing a then (if paused a then Paused else Running)
  else if (currentStepIndex a =? -1)%Z then NotStarted
  else Completed.

(** ** Invariant of the reachable states *)

Definition queue_shape (a : App) : Prop :=
  match frameQueue a with
  | [] => True
  | [(h, _)] => timerRef a = Some h /\ effectCleanup a = true
  | _ => False
  end.

Definition scheduled_ok (a : App) : Prop :=
  match frameQueue a with
  | [] => processing a = true -> paused a = true
  | [(h, cl)] =>
      timerRef a = Some h /\ effectCleanup a = true /\
      processing a = true /\ paused a = false /\
      cl_index cl = currentStepIndex a /\
      stepAt (currentStepIndex a) = Some (cl_step cl)
  | _ => False
  end.

Definition progress_ok (a : App) : Prop :=
  processing a = true ->
  exists s, stepAt (currentStepIndex a) = Some s /\
    stepProgress a == Qmin 100 (elapsedRef a / durationMs s * 100) /\
    stepProgress a < 100.

Definition idle_ok (a : App) : Prop :=
  processing a = false ->
  (currentStepIndex a = (-1)%Z /\ stepProgress a == 0) \/
  (currentStepIndex a = (STEP_COUNT - 1)%Z /\ stepProgress a == 100).

Record wf (a : App) : Prop := mkWf {
  wf_sched : scheduled_ok a;
  wf_progress : progress_ok a;
  wf_idle : idle_ok a
}.

Definition same_data (a b : App) : Prop :=
  file a = file b /\ errorMessage a = errorMessage b /\
  processing a = processing b /\ paused a = paused b /\
  currentStepIndex a = currentStepIndex b /\
  stepProgress a = stepProgress b /\
  stepStartRef a = stepStartRef b /\ elapsedRef a = elapsedRef b.

(** The progress value [tick] computes. *)
Definition tick_pct (cl : TickClosure) (now : Q) (a : App) : Q :=
  Qmin 100 ((now - stepStartRef a) / durationMs (cl_step cl) * 100).

(** ** Sample states *)

Definition video : File := mkFile "clip.mp4" "video/mp4" 1024.

Definition started : App := run [EvSelectFile video; EvStart 0] initial.


Definition paused_at_1000 : App := run [EvFrame 1000 1000; EvPause] started.

Definition running_at_1000 : App := run [EvFrame 1000 1000] started.

Definition in_second_step : App := run [EvFrame 2000 2000] started.

(** ** Notions used to state the properties *)


(** The formula of the specification for [overallProgress], [N] being the
    stage count. *)
Definition overallProgress_spec (N : Q) (currentStageIndex : Z)
    (stageProgressPct : Q) : Q :=
  Qmin 100
    (Qmax 0
       (Qmax 0 (inject_Z currentStageIndex) * (100 / N)
        + (stageProgressPct / 100) * (100 / N))).

(** The states seen along a sequence of animation frames; each frame comes
    with its two clock readings. *)
Fixpoint trace (ts : list (Q * Q)) (a : App) : list App :=
  match ts with
  | [] => [a]
  | t :: r => a :: trace r (frame (fst t) (snd t) a)
  end.

(** The clock never runs backward: every reading is at least the one
    before it, [t] being the last reading taken so far. *)
Fixpoint clock_ok (t : Q) (ts : list (Q * Q)) : Prop :=
  match ts with
  | [] => True
  | n :: r => t <= fst n /\ fst n <= snd n /\ clock_ok (snd n) r
  end.

Definition selected : App := run [EvSelectFile video] initial.

(** Clock readings of a run that completes all six stages. *)
Definition full_run : list (Q * Q) :=
  [ (1000, 1000); (2000, 2001); (5001, 5001); (7001, 7002); (8502, 8502);
    (10002, 10002); (11000, 11000); (11502, 11503) ].

(** ** Progress label of [ProgressPanel]

    [Math.round] rounds to the nearest integer, halves upward. *)

Definition Math_round (x : Q) : Q := inject_Z (Qfloor (x + (1 # 2))).

(** The number shown in front of the percent sign under the overall bar. *)
Definition progressLabel (a : App) : Q := Math_round (overallProgress a).

(** ** Clock readings of a sequence of events *)

Definition readings (e : Event) : list Q :=
  match e with
  | EvStart now => [now]
  | EvResume now => [now]
  | EvFrame now now2 => [now; now2]
  | EvPause | EvReset | EvSelectFile _ => []
  end.

(** Every reading is at least the one before it, [t] being the last
    reading taken so far. *)
Fixpoint nondecreasing_from (t : Q) (l : list Q) : Prop :=
  match l with
  | [] => True
  | x :: r => t <= x /\ nondecreasing_from x r
  end.

Definition completed_run : App :=
  run [EvStart 0; EvFrame 1000 1000; EvFrame 2000 2001; EvFrame 5001 5001;
       EvFrame 7001 7002; EvFrame 8502 8502; EvFrame 10002 10002;
       EvFrame 11000 11000; EvFrame 11502 11503] selected.

(** What the clock invariant says of a state, [t] being the last reading
    taken: elapsed time and stage progress are not negative, and during a
    run the stage-start reference plus the elapsed time is not in the
    future. *)
Definition clock_inv (t : Q) (a : App) : Prop :=
  0 <= elapsedRef a /\ 0 <= stepProgress a /\
  (processing a = true -> stepStartRef a + elapsedRef a <= t).

(** The last clock reading after event [e], [t] being the last one before. *)
Definition clock_after (t : Q) (e : Event) : Q := last (readings e) t.

(** ** Backend base URL

    [s.replace(/\/$/, '')]: the pattern matches one slash at the very end
    of the string, and the first match is removed. *)
Fixpoint replace_trailing_slash (s : string) : string :=
  match s with
  | EmptyString => EmptyString
  | String c EmptyString =>
      if Ascii.eqb c "/"%char then EmptyString else s
  | String c r => String c (replace_trailing_slash r)
  end.

(** [VITE_BASE_URL] is the environment variable ([None] when it is not
    set), [origin] is [window.location.origin]. *)
Definition BASE_URL (VITE_BASE_URL : option string) (origin : string) : string :=
  let envBase :=
    match VITE_BASE_URL with
    | Some (String c r) => String c r
    | Some EmptyString | None => EmptyString
    end in
  match envBase with
  | String _ _ => replace_trailing_slash envBase
  | EmptyString => replace_trailing_slash origin
  end.

(** ** Upload initiation

    The network is an input: [fetch] maps a request to the response the
    promise resolves with, or to the value it rejects with.  A rejection or
    a thrown value is represented by its [message] property when it has
    one.  The request body is kept as a record in place of its
    [JSON.stringify] text, the parsed response body is opaque, and the
    console output is left out. *)

Inductive Outcome (A : Type) : Type :=
| Resolved (x : A)
| Rejected (message : option string).

Arguments Resolved {A} x.
Arguments Rejected {A} message.

Definition bind {A B : Type} (m : Outcome A) (k : A -> Outcome B) : Outcome B :=
  match m with
  | Resolved x => k x
  | Rejected e => Rejected e
  end.

Notation "x <- m ;; k" := (bind m (fun x => k))
  (at level 100, m at next level, right associativity, only parsing).

Inductive JSON : Type := json_value (source : string).

Record InitiateBody : Type := mkBody {
  fileName : string;
  contentType : string;
  partCount : Q
}.

Record Request : Type := mkRequest {
  req_url : string;
  req_method : string;
  req_contentType : string;
  req_body : InitiateBody
}.

Record Response : Type := mkResponse {
  res_ok : bool;
  res_status : Z;
  res_text : Outcome string;
  res_json : Outcome JSON
}.

(** A number inside a template literal. *)
Definition number_text (n : Z) : string := NilZero.string_of_int (Z.to_int n).

Definition post (url : string) (body : InitiateBody) : Request :=
  mkRequest url "POST" "application/json" body.

(** The [body] object built from the picked file. *)
Definition initiate_body (pickedFile : File) : InitiateBody :=
  let contentType :=
    match type pickedFile with
    | EmptyString => "application/octet-stream"
    | t => t
    end in
  let partCount := computePartCount (inject_Z (size pickedFile)) in
  mkBody (name pickedFile) contentType partCount.

Definition primaryUrl (BASE : string) : string :=
  (BASE ++ "/api/uploads/initiate")%string.

Definition altUrl (BASE : string) : string :=
  (BASE ++ "/uploads/initiate")%string.

(** The body of the [try] block: the value handed to [setUploadInit], or
    what is thrown. *)
Definition initiateUpload_try (BASE : string) (fetch : Request -> Outcome Response)
    (pickedFile : File) : Outcome JSON :=
  let body := initiate_body pickedFile in
  res <- fetch (post (primaryUrl BASE) body) ;;
  res <-
    (if negb (res_ok res) then
       res <-
         (if (res_status res =? 404)%Z then fetch (post (altUrl BASE) body)
          else Resolved res) ;;
       if negb (res_ok res) then
         text <- res_text res ;;
         Rejected
           (Some ("Initiate failed " ++ number_text (res_status res)
                  ++ ": " ++ text)%string)
       else Resolved res
     else Resolved res) ;;
  data <- res_json res ;;
  Resolved data.

(** The component state together with [uploadInit]. *)
Definition Component : Type := App * option JSON.

(** What [initiateUpload] does to the state once the exchange is over:
    the end of the [try] block, or the [catch] block. *)
Definition initiateUpload_settle (result : Outcome JSON) (c : Component) : Component :=
  match result with
  | Resolved data => (fst c, Some data)
  | Rejected err =>
      let message :=
        match err with
        | Some (String ch r) => String ch r
        | Some EmptyString | None => "Unknown error"
        end in
      (setErrorMessage ("Failed to initiate upload: " ++ message)%string (fst c),
       None)
  end.

Definition initiateUpload (BASE : string) (fetch : Request -> Outcome Response)
    (pickedFile : File) (c : Component) : Component :=
  initiateUpload_settle (initiateUpload_try BASE fetch pickedFile) c.

(** What a response leads to once it is the one that counts. *)
Definition response_result (res : Response) : Outcome JSON :=
  if res_ok res then res_json res
  else
    match res_text res with
    | Resolved text =>
        Rejected
          (Some ("Initiate failed " ++ number_text (res_status res)
                 ++ ": " ++ text)%string)
    | Rejected e => Rejected e
    end.

(** Sample network: the primary path is not found, the other path answers. *)
Definition found_on_alt (r : Request) : Outcome Response :=
  if String.eqb (req_url r) "http://localhost:8080/api/uploads/initiate" then
    Resolved (mkResponse false 404 (Resolved "Not Found") (Rejected None))
  else
    Resolved (mkResponse true 200 (Resolved "{}")
                (Resolved (json_value "{}"))).

(** Sample network: the server refuses. *)
Definition server_error (r : Request) : Outcome Response :=
  Resolved (mkResponse false 500 (Resolved "boom") (Rejected None)).

(** ** Duration of a run *)



(** * Properties *)

(** ** Sample states *)

Example started_status : status started = Running.
Proof. reflexivity. Qed.

Example started_scheduled :
  frameQueue started = [(1%positive, mkTick 0 (mkStep "extract" "Extract audio (ffmpeg)" 2000))].
Proof. reflexivity. Qed.

(** ** Facts about the stage table *)

Lemma stepAt_Some (i : Z) (s : Step) :
  stepAt i = Some s -> (0 <= i < STEP_COUNT)%Z /\ 1500 <= durationMs s.
Proof.
  unfold stepAt, STEP_COUNT, STEP_DEFINITIONS.
  destruct (Z.ltb_spec i 0) as [Hi | Hi]; [discriminate |].
  destruct (Z.to_nat i) as [|[|[|[|[|[|n]]]]]] eqn:E; simpl; intros H;
    try (destruct n; discriminate); injection H as <-; simpl;
    (split; [lia | unfold Qle; simpl; lia]).
Qed.

Lemma stepAt_lt (i : Z) :
  (0 <= i < STEP_COUNT)%Z -> exists s, stepAt i = Some s.
Proof.
  unfold stepAt, STEP_COUNT. simpl. intros Hi.
  destruct (Z.ltb_spec i 0) as [Hn | _]; [lia |].
  destruct (nth_error STEP_DEFINITIONS (Z.to_nat i)) eqn:E; [eauto |].
  apply nth_error_None in E. simpl in E. lia.
Qed.

(** ** The invariant holds in every reachable state *)

Lemma deps_eqb_refl d : deps_eqb d d = true.
Proof.
  destruct d as [[p q] i]. unfold deps_eqb. simpl.
  now rewrite !Bool.eqb_reflx, Z.eqb_refl.
Qed.

Lemma deps_eqb_eq d e : deps_eqb d e = true -> d = e.
Proof.
  destruct d as [[p q] i], e as [[p' q'] i']. unfold deps_eqb. simpl.
  rewrite !andb_true_iff, !Bool.eqb_true_iff, Z.eqb_eq.
  intros [[-> ->] ->]. reflexivity.
Qed.

Lemma scheduled_ok_shape a : scheduled_ok a -> queue_shape a.
Proof.
  unfold scheduled_ok, queue_shape.
  destruct (frameQueue a) as [|[h cl] [|]]; tauto.
Qed.

Lemma effect_same_data a : same_data (effect a) a.
Proof.
  unfold effect, same_data.
  destruct (negb (processing a) || paused a || (currentStepIndex a <? 0)%Z);
    [simpl; tauto |].
  destruct (stepAt (currentStepIndex a)); simpl; tauto.
Qed.

Lemma effect_cleanup_same_data a : same_data (effect_cleanup a) a.
Proof.
  unfold effect_cleanup, same_data. destruct (timerRef a); simpl; tauto.
Qed.

Lemma same_data_trans a b c : same_data a b -> same_data b c -> same_data a c.
Proof. unfold same_data. intuition congruence. Qed.

Lemma same_data_refl a : same_data a a.
Proof. unfold same_data. tauto. Qed.

Lemma commit_same_data before a : same_data (commit before a) a.
Proof.
  unfold commit. destruct (deps_eqb before (deps a)); [apply same_data_refl |].
  eapply same_data_trans; [apply effect_same_data |].
  destruct (effectCleanup a);
    [apply effect_cleanup_same_data | apply same_data_refl].
Qed.

Lemma progress_ok_same_data a b : same_data a b -> progress_ok b -> progress_ok a.
Proof.
  unfold same_data, progress_ok.
  intros (_ & _ & -> & _ & -> & -> & _ & ->). tauto.
Qed.

Lemma idle_ok_same_data a b : same_data a b -> idle_ok b -> idle_ok a.
Proof.
  unfold same_data, idle_ok.
  intros (_ & _ & -> & _ & -> & -> & _ & _). tauto.
Qed.

(** Re-running the effect after its cleanup leaves exactly the callback the
    current state calls for. *)
Lemma resync_scheduled a :
  queue_shape a ->
  (processing a = true -> exists s, stepAt (currentStepIndex a) = Some s) ->
  scheduled_ok (effect (if effectCleanup a then effect_cleanup a else a)).
Proof.
  unfold queue_shape, scheduled_ok, effect, effect_cleanup, cancelAnimationFrame,
    requestAnimationFrame.
  destruct a as [f em p q i sp tr ss el ec fq nh]; simpl.
  intros Hq Hs.
  assert (Hfq : (if ec then
                   match tr with
                   | Some h => filter (fun e => negb (fst e =? h)%positive) fq
                   | None => fq
                   end
                 else fq) = []).
  { destruct fq as [|[h cl] [|]]; [destruct ec, tr; reflexivity | | tauto].
    destruct Hq as [-> ->]. simpl. now rewrite Pos.eqb_refl. }
  destruct ec; [destruct tr |]; simpl in *; rewrite ?Hfq;
    destruct p, q; simpl; try discriminate; try tauto;
    (destruct (Z.ltb_spec i 0); simpl; [destruct Hs as [s Hs]; auto;
       unfold stepAt in Hs; destruct (Z.ltb_spec i 0); [discriminate | lia] |]);
    (destruct (stepAt i) eqn:E; simpl; rewrite ?Hfq; simpl;
      [tauto | destruct Hs as [s Hs]; [reflexivity | discriminate]]).
Qed.

Lemma commit_scheduled before a :
  queue_shape a ->
  (processing a = true -> exists s, stepAt (currentStepIndex a) = Some s) ->
  (before = deps a -> scheduled_ok a) ->
  scheduled_ok (commit before a).
Proof.
  intros Hq Hs Hsame. unfold commit.
  destruct (deps_eqb before (deps a)) eqn:E.
  - apply Hsame. now apply deps_eqb_eq.
  - now apply resync_scheduled.
Qed.

Lemma progress_ok_step a :
  progress_ok a ->
  processing a = true -> exists s, stepAt (currentStepIndex a) = Some s.
Proof. intros H Hp. destruct (H Hp) as (s & Hs & _). eauto. Qed.

(** What a handler must establish for the state after its re-render to be
    well formed. *)
Lemma call_wf (h : App -> App) a :
  queue_shape (h a) ->
  (deps a = deps (h a) -> scheduled_ok (h a)) ->
  progress_ok (h a) ->
  idle_ok (h a) ->
  wf (call h a).
Proof.
  intros Hq Hsame Hp Hi. unfold call. split.
  - apply commit_scheduled; auto using progress_ok_step.
  - eapply progress_ok_same_data; [apply commit_same_data | exact Hp].
  - eapply idle_ok_same_data; [apply commit_same_data | exact Hi].
Qed.

Lemma Qmin_100_zero (d : Q) : 0 == Qmin 100 (0 / d * 100).
Proof.
  assert (H : 0 / d * 100 == 0) by (unfold Qdiv; ring).
  rewrite H. symmetry. apply Q.min_r. lra.
Qed.

Lemma wf_initial : wf initial.
Proof.
  split.
  - unfold scheduled_ok. simpl. discriminate.
  - unfold progress_ok. simpl. discriminate.
  - unfold idle_ok. simpl. left. split; [reflexivity | lra].
Qed.

Lemma stepAt_0 : exists s, stepAt 0 = Some s.
Proof. apply stepAt_lt. unfold STEP_COUNT. simpl. lia. Qed.

Lemma wf_startProcessing now a : wf a -> wf (call (startProcessing now) a).
Proof.
  intros [Hs Hp Hi]. pose proof (scheduled_ok_shape a Hs) as Hq.
  apply call_wf; unfold startProcessing; destruct (file a) eqn:Hf; auto.
  - unfold deps. simpl. intros [= Hpr Hpa Hidx]. revert Hs.
    unfold scheduled_ok. simpl. rewrite <- Hpr, <- Hpa, <- Hidx. tauto.
  - intros _. simpl. destruct stepAt_0 as [s Hs0].
    exists s. split; [exact Hs0 | split; [apply Qmin_100_zero | lra]].
  - unfold idle_ok. simpl. discriminate.
Qed.

Lemma wf_pause a : wf a -> wf (call pause a).
Proof.
  intros [Hs Hp Hi]. apply call_wf; unfold pause.
  - apply scheduled_ok_shape in Hs. exact Hs.
  - unfold deps. simpl. intros [= Hpa]. revert Hs.
    unfold scheduled_ok. simpl. rewrite <- Hpa. tauto.
  - exact Hp.
  - exact Hi.
Qed.

Lemma resume_idle now a : processing a = false -> resume now a = a.
Proof. unfold resume. now intros ->. Qed.

Lemma call_id (h : App -> App) a : h a = a -> call h a = a.
Proof. unfold call, commit. intros ->. now rewrite deps_eqb_refl. Qed.

Lemma wf_resume now a : wf a -> wf (call (resume now) a).
Proof.
  intros Hwf. destruct (processing a) eqn:Hpr.
  2:{ rewrite call_id; auto using resume_idle. }
  destruct Hwf as [Hs Hp Hi]. pose proof (scheduled_ok_shape a Hs) as Hq.
  apply call_wf; unfold resume; rewrite Hpr; simpl.
  - exact Hq.
  - unfold deps. simpl. rewrite Hpr. intros [= Hpa]. revert Hs.
    unfold scheduled_ok. simpl. rewrite Hpr, <- Hpa. tauto.
  - unfold progress_ok in *. simpl. rewrite Hpr in *. exact Hp.
  - unfold idle_ok. simpl. rewrite Hpr. discriminate.
Qed.

Lemma reset_queue_empty a : queue_shape a -> frameQueue (reset a) = [].
Proof.
  unfold queue_shape, reset, cancelAnimationFrame.
  destruct a as [f em p q i sp tr ss el ec fq nh]; simpl.
  destruct fq as [|[h cl] [|]]; try tauto.
  - intros _. destruct tr; reflexivity.
  - intros [-> _]. simpl. now rewrite Pos.eqb_refl.
Qed.

Lemma reset_fields a :
  processing (reset a) = false /\ paused (reset a) = false /\
  currentStepIndex (reset a) = (-1)%Z /\ stepProgress (reset a) = 0 /\
  elapsedRef (reset a) = 0 /\ stepStartRef (reset a) = 0 /\
  file (reset a) = file a.
Proof. unfold reset. simpl. destruct (timerRef a); simpl; tauto. Qed.

Lemma wf_reset_body a : queue_shape a ->
  queue_shape (reset a) /\ scheduled_ok (reset a) /\
  progress_ok (reset a) /\ idle_ok (reset a).
Proof.
  intros Hq. pose proof (reset_queue_empty a Hq) as He.
  destruct (reset_fields a) as (Hp & Hpa & Hi & Hsp & _).
  unfold queue_shape, scheduled_ok, progress_ok, idle_ok.
  rewrite He, Hp, Hi, Hsp. repeat split; try discriminate.
  intros _. left. split; [reflexivity | lra].
Qed.

Lemma wf_reset a : wf a -> wf (call reset a).
Proof.
  intros [Hs _ _]. apply scheduled_ok_shape in Hs.
  destruct (wf_reset_body a Hs) as (H1 & H2 & H3 & H4).
  apply call_wf; auto.
Qed.

Lemma wf_handleFile picked a : wf a -> wf (call (handleFile picked) a).
Proof.
  intros [Hs _ _]. apply scheduled_ok_shape in Hs.
  assert (Hq : queue_shape (set_file (Some picked) a)) by exact Hs.
  destruct (wf_reset_body _ Hq) as (H1 & H2 & H3 & H4).
  apply call_wf; unfold handleFile; auto.
Qed.

(** ** One animation frame *)

Lemma frame_idle now now2 a : frameQueue a = [] -> frame now now2 a = a.
Proof.
  destruct a as [f em p q i sp tr ss el ec fq nh]. simpl. intros ->.
  unfold frame, commit. simpl. now rewrite deps_eqb_refl.
Qed.

Lemma frame_pending now now2 a h cl :
  frameQueue a = [(h, cl)] ->
  frame now now2 a = commit (deps a) (tick cl now now2 (set_frameQueue [] a)).
Proof. unfold frame. now intros ->. Qed.

Lemma Qle_bool_false x y : Qle_bool x y = false -> y < x.
Proof.
  intros H. apply Qnot_le_lt. intros Hle.
  apply Qle_bool_iff in Hle. congruence.
Qed.

Lemma wf_frame now now2 a : wf a -> wf (frame now now2 a).
Proof.
  intros Hwf. pose proof Hwf as [Hs Hp Hi]. unfold scheduled_ok in Hs.
  destruct (frameQueue a) as [|[h cl] [|]] eqn:Hq; [| | tauto].
  { now rewrite frame_idle. }
  destruct Hs as (Htr & Hec & Hpr & Hpa & Hci & Hst).
  rewrite (frame_pending _ _ _ _ _ Hq).
  pose (pct := tick_pct cl now a).
  assert (Htick : tick cl now now2 (set_frameQueue [] a) =
    let a2 := setStepProgress pct (set_elapsedRef (now - stepStartRef a)
                (set_frameQueue [] a)) in
    if Qle_bool 100 pct then
      if (cl_index cl + 1 <? STEP_COUNT)%Z then
        set_stepStartRef now2 (set_elapsedRef 0 (setStepProgress 0
          (setCurrentStepIndex (currentStepIndex a + 1) a2)))
      else setProcessing false a2
    else set_timerRef (Some (nextHandle a))
           (set_nextHandle (Pos.succ (nextHandle a))
              (set_frameQueue [(nextHandle a, cl)] a2))) by reflexivity.
  rewrite Htick. clear Htick. cbv zeta.
  destruct (Qle_bool 100 pct) eqn:Hpct.
  - destruct (Z.ltb_spec (cl_index cl + 1) STEP_COUNT) as [Hnext | Hlast].
    + (* advance *)
      destruct (stepAt_lt (currentStepIndex a + 1)) as [s' Hs'].
      { apply stepAt_Some in Hst. lia. }
      split.
      * apply commit_scheduled; simpl.
        -- exact I.
        -- eauto.
        -- unfold deps. simpl. intros H. apply (f_equal snd) in H.
           simpl in H. lia.
      * eapply progress_ok_same_data; [apply commit_same_data |].
        intros _. simpl. exists s'.
        split; [exact Hs' | split; [apply Qmin_100_zero | lra]].
      * eapply idle_ok_same_data; [apply commit_same_data |].
        unfold idle_ok. simpl. congruence.
    + (* last step completed *)
      split.
      * apply commit_scheduled; simpl.
        -- exact I.
        -- discriminate.
        -- unfold deps. simpl. intros H.
           apply (f_equal (fun d => fst (fst d))) in H. simpl in H. congruence.
      * eapply progress_ok_same_data; [apply commit_same_data |].
        unfold progress_ok. simpl. discriminate.
      * eapply idle_ok_same_data; [apply commit_same_data |].
        intros _. simpl. right. split.
        -- apply stepAt_Some in Hst. change STEP_COUNT with 6%Z in *. lia.
        -- apply Qle_bool_iff in Hpct. apply Qle_antisym; [| exact Hpct].
           apply Q.le_min_l.
  - (* not finished: the callback re-schedules itself *)
    assert (Hc : commit (deps a)
      (set_timerRef (Some (nextHandle a))
         (set_nextHandle (Pos.succ (nextHandle a))
            (set_frameQueue [(nextHandle a, cl)]
               (setStepProgress pct
                  (set_elapsedRef (now - stepStartRef a)
                     (set_frameQueue [] a)))))) = 
      set_timerRef (Some (nextHandle a))
         (set_nextHandle (Pos.succ (nextHandle a))
            (set_frameQueue [(nextHandle a, cl)]
               (setStepProgress pct
                  (set_elapsedRef (now - stepStartRef a)
                     (set_frameQueue [] a)))))).
    { unfold commit, deps. simpl. now rewrite deps_eqb_refl. }
    rewrite Hc. clear Hc. split.
    + unfold scheduled_ok. simpl. tauto.
    + intros _. simpl. exists (cl_step cl).
      split; [exact Hst | split; [reflexivity | now apply Qle_bool_false]].
    + unfold idle_ok. simpl. congruence.
Qed.

Lemma wf_dispatch e a : wf a -> wf (dispatch e a).
Proof.
  destruct e; simpl;
    auto using wf_startProcessing, wf_pause, wf_resume, wf_reset,
      wf_handleFile, wf_frame.
Qed.

Lemma Reachable_wf a : Reachable a -> wf a.
Proof. induction 1; auto using wf_initial, wf_dispatch. Qed.

Lemma Reachable_run es a : Reachable a -> Reachable (run es a).
Proof.
  revert a. induction es as [|e es IH]; simpl; intros a Ha; [exact Ha |].
  apply IH. now constructor.
Qed.

(** Reachability of a state given as a [run] from [initial]. *)
Ltac reachable :=
  repeat first [exact Reachable_initial | apply Reachable_run].

(** ** What one frame does to a running pipeline *)

Lemma running_pending a :
  wf a -> processing a = true -> paused a = false ->
  exists h cl, frameQueue a = [(h, cl)] /\
    cl_index cl = currentStepIndex a /\
    stepAt (currentStepIndex a) = Some (cl_step cl).
Proof.
  intros [Hs _ _] Hp Hq. unfold scheduled_ok in Hs.
  destruct (frameQueue a) as [|[h cl] [|]]; [| | tauto].
  - rewrite (Hs Hp) in Hq. discriminate.
  - exists h, cl. tauto.
Qed.


Lemma not_running_idle a :
  wf a -> processing a = false \/ paused a = true -> frameQueue a = [].
Proof.
  intros [Hs _ _] H. unfold scheduled_ok in Hs.
  destruct (frameQueue a) as [|[h cl] [|]]; [reflexivity | | tauto].
  destruct Hs as (_ & _ & Hp & Hq & _). destruct H; congruence.
Qed.

Lemma tick_unfold cl now now2 a :
  tick cl now now2 a =
    let pct := tick_pct cl now a in
    let a2 := setStepProgress pct (set_elapsedRef (now - stepStartRef a) a) in
    if Qle_bool 100 pct then
      if (cl_index cl + 1 <? STEP_COUNT)%Z then
        set_stepStartRef now2 (set_elapsedRef 0 (setStepProgress 0
          (setCurrentStepIndex (currentStepIndex a + 1) a2)))
      else setProcessing false a2
    else set_timerRef (Some (nextHandle a))
           (set_nextHandle (Pos.succ (nextHandle a))
              (set_frameQueue (frameQueue a ++ [(nextHandle a, cl)]) a2)).
Proof. reflexivity. Qed.

(** The three outcomes of a frame while running, on the data fields. *)
Lemma frame_running now now2 a :
  wf a -> processing a = true -> paused a = false ->
  exists s, stepAt (currentStepIndex a) = Some s /\
    let e := now - stepStartRef a in
    let pct := Qmin 100 (e / durationMs s * 100) in
    let b := frame now now2 a in
    (pct < 100 ->
       processing b = true /\ paused b = false /\
       currentStepIndex b = currentStepIndex a /\
       elapsedRef b = e /\ stepProgress b = pct /\
       stepStartRef b = stepStartRef a) /\
    (100 <= pct -> (currentStepIndex a + 1 < STEP_COUNT)%Z ->
       processing b = true /\ paused b = false /\
       currentStepIndex b = (currentStepIndex a + 1)%Z /\
       elapsedRef b = 0 /\ stepProgress b = 0 /\
       stepStartRef b = now2) /\
    (100 <= pct -> (STEP_COUNT <= currentStepIndex a + 1)%Z ->
       processing b = false /\ paused b = false /\
       currentStepIndex b = currentStepIndex a /\
       elapsedRef b = e /\ stepProgress b = pct /\
       stepStartRef b = stepStartRef a).
Proof.
  intros Hwf Hp Hq.
  destruct (running_pending a Hwf Hp Hq) as (h & cl & Hfq & Hi & Hs).
  exists (cl_step cl). split; [exact Hs |]. cbv zeta.
  rewrite (frame_pending _ _ _ _ _ Hfq).
  destruct (commit_same_data (deps a) (tick cl now now2 (set_frameQueue [] a)))
    as (_ & _ & -> & -> & -> & -> & -> & ->).
  rewrite tick_unfold. unfold tick_pct. cbv zeta. simpl stepStartRef at 1 2.
  change (stepStartRef (set_frameQueue [] a)) with (stepStartRef a).
  set (pct := Qmin 100 ((now - stepStartRef a) / durationMs (cl_step cl) * 100)).
  rewrite Hi.
  destruct (Qle_bool 100 pct) eqn:Hpct.
  - apply Qle_bool_iff in Hpct.
    destruct (Z.ltb_spec (currentStepIndex a + 1) STEP_COUNT) as [Hn | Hl]; simpl.
    + repeat split; auto; intros; try lra; try lia.
    + repeat split; auto; intros; try lra; try lia.
  - apply Qle_bool_false in Hpct. simpl.
    repeat split; auto; intros; lra.
Qed.

Lemma status_Running a :
  status a = Running <-> processing a = true /\ paused a = false.
Proof.
  unfold status. destruct (processing a), (paused a);
    try destruct (currentStepIndex a =? -1)%Z;
    split; try discriminate; try tauto; intros [? ?]; discriminate.
Qed.

Lemma status_Paused a :
  status a = Paused <-> processing a = true /\ paused a = true.
Proof.
  unfold status. destruct (processing a), (paused a);
    try destruct (currentStepIndex a =? -1)%Z;
    split; try discriminate; try tauto; intros [? ?]; discriminate.
Qed.


(** ** Tick *)



(** ** Pause and resume *)

Lemma stepAt_positive i s : stepAt i = Some s -> 0 < durationMs s.
Proof. intros H. apply stepAt_Some in H. lra. Qed.

(** What [resume] followed by its re-render does to the data fields of a
    run in progress. *)
Lemma resume_processing now a :
  processing a = true ->
  let b := call (resume now) a in
  processing b = true /\ paused b = false /\
  currentStepIndex b = currentStepIndex a /\
  stepProgress b = stepProgress a /\ elapsedRef b = elapsedRef a /\
  stepStartRef b = now - elapsedRef a /\ file b = file a.
Proof.
  intros Hp. cbv zeta. unfold call.
  destruct (commit_same_data (deps a) (resume now a))
    as (-> & _ & -> & -> & -> & -> & -> & ->).
  unfold resume. rewrite Hp. simpl. tauto.
Qed.


(** [pause] only raises the [paused] flag: every other field, in particular
    the elapsed time and the progress, stays as it was. *)
Lemma pause_freezes a :
  let b := call pause a in
  paused b = true /\ processing b = processing a /\
  currentStepIndex b = currentStepIndex a /\
  stepProgress b = stepProgress a /\ elapsedRef b = elapsedRef a /\
  stepStartRef b = stepStartRef a /\ file b = file a.
Proof.
  cbv zeta. unfold call.
  destruct (commit_same_data (deps a) (pause a))
    as (-> & _ & -> & -> & -> & -> & -> & ->).
  unfold pause. simpl. tauto.
Qed.



Example resume_continuity_values :
  let c := frame 5000 5000 (call (resume 5000) paused_at_1000) in
  stepStartRef (call (resume 5000) paused_at_1000) == 4000 /\
  elapsedRef paused_at_1000 == 1000 /\ elapsedRef c == 1000 /\
  stepProgress paused_at_1000 == 50 /\ stepProgress c == 50.
Proof. vm_compute. repeat split; reflexivity. Qed.

(** ** Calls outside their valid state *)

Lemma pause_paused a : paused a = true -> pause a = a.
Proof.
  destruct a as [f em p q i sp tr ss el ec fq nh]. simpl. now intros ->.
Qed.

Lemma startProcessing_no_file now a :
  file a = None -> startProcessing now a = a.
Proof. unfold startProcessing. now intros ->. Qed.

Lemma status_not_processing a b :
  processing a = false -> processing b = false ->
  currentStepIndex b = currentStepIndex a -> status b = status a.
Proof. unfold status. now intros -> -> ->. Qed.

Lemma status_cases a :
  status a = Running \/ status a = Paused \/
  (processing a = false /\ (status a = NotStarted \/ status a = Completed)).
Proof.
  unfold status. destruct (processing a), (paused a); auto;
    destruct (currentStepIndex a =? -1)%Z; auto.
Qed.

(** C3, as the code has it.  [start] without a file and [resume] while not
    processing (NotStarted or Completed) return the state they were given;
    so does [pause] when the [paused] flag is already set.  [pause] has no
    guard: outside a run it still sets the flag, and nothing else, so the
    status is unchanged.  [resume] during a run that is not paused keeps
    status, stage, progress, elapsed time and the pending callback, and
    rebases the stage-start reference to [now - elapsedRef].  The Pause
    button is disabled unless the status is Running and the Resume button
    unless it is Paused, so a click there changes nothing. *)
Theorem invalid_calls (a : App) (now : Q) :
  (file a = None -> call (startProcessing now) a = a) /\
  (processing a = false -> call (resume now) a = a) /\
  (paused a = true -> call pause a = a) /\
  (Reachable a -> processing a = false ->
     let b := call pause a in
     paused b = true /\ status b = status a /\
     currentStepIndex b = currentStepIndex a /\
     stepProgress b = stepProgress a /\ elapsedRef b = elapsedRef a /\
     stepStartRef b = stepStartRef a /\ file b = file a /\
     frameQueue b = frameQueue a) /\
  (Reachable a -> status a = Running ->
     let b := call (resume now) a in
     status b = Running /\
     currentStepIndex b = currentStepIndex a /\
     stepProgress b = stepProgress a /\ elapsedRef b = elapsedRef a /\
     stepStartRef b = now - elapsedRef a /\ file b = file a /\
     frameQueue b = frameQueue a) /\
  (status a <> Running -> click pauseDisabled EvPause a = a) /\
  (status a <> Paused -> click resumeDisabled (EvResume now) a = a).
Proof.
  split; [| split; [| split; [| split; [| split; [| split]]]]].
  - intros Hf. apply call_id. now apply startProcessing_no_file.
  - intros Hp. apply call_id. now apply resume_idle.
  - intros Hq. apply call_id. now apply pause_paused.
  - intros Hr Hp. cbv zeta.
    destruct (pause_freezes a) as (H1 & H2 & H3 & H4 & H5 & H6 & H7).
    pose proof (Reachable_wf a Hr) as Hwf.
    pose proof (wf_pause a Hwf) as Hwfb.
    rewrite (not_running_idle a Hwf), (not_running_idle _ Hwfb) by auto.
    repeat split; auto.
    apply status_not_processing; congruence.
  - intros Hr Hst. cbv zeta. apply status_Running in Hst.
    destruct Hst as [Hp Hq].
    destruct (resume_processing now a Hp) as (H1 & H2 & H3 & H4 & H5 & H6 & H7).
    split; [apply status_Running; auto |].
    repeat split; auto.
    unfold call, commit, resume. rewrite Hp. unfold deps. simpl.
    rewrite Hq. now rewrite deps_eqb_refl.
  - intros Hn. unfold click, pauseDisabled.
    destruct (status_cases a) as [H | [H | [H _]]]; [congruence | |].
    + apply status_Paused in H. destruct H as [-> ->]. reflexivity.
    + now rewrite H.
  - intros Hn. unfold click, resumeDisabled.
    destruct (status_cases a) as [H | [H | [H _]]]; [| congruence |].
    + apply status_Running in H. destruct H as [-> ->]. reflexivity.
    + now rewrite H.
Qed.

Lemma invalid_calls_witness :
  file initial = None /\ processing initial = false /\
  Reachable initial /\
  status initial <> Running /\ status initial <> Paused /\
  call (startProcessing 7) initial = initial /\
  call (resume 7) initial = initial /\
  (let b := call pause initial in
   paused b = true /\ status b = status initial /\
   currentStepIndex b = currentStepIndex initial /\
   stepProgress b = stepProgress initial /\
   elapsedRef b = elapsedRef initial /\
   stepStartRef b = stepStartRef initial /\ file b = file initial /\
   frameQueue b = frameQueue initial) /\
  click pauseDisabled EvPause initial = initial /\
  click resumeDisabled (EvResume 7) initial = initial /\
  paused paused_at_1000 = true /\
  call pause paused_at_1000 = paused_at_1000 /\
  Reachable running_at_1000 /\ status running_at_1000 = Running /\
  (let b := call (resume 1500) running_at_1000 in
   status b = Running /\
   currentStepIndex b = currentStepIndex running_at_1000 /\
   stepProgress b = stepProgress running_at_1000 /\
   elapsedRef b = elapsedRef running_at_1000 /\
   stepStartRef b = 1500 - elapsedRef running_at_1000 /\
   file b = file running_at_1000 /\
   frameQueue b = frameQueue running_at_1000).
Proof.
  assert (Hr : Reachable running_at_1000) by reachable.
  assert (Hn1 : status initial <> Running) by (vm_compute; discriminate).
  assert (Hn2 : status initial <> Paused) by (vm_compute; discriminate).
  destruct (invalid_calls initial 7) as (I1 & I2 & _ & I4 & _ & I6 & I7).
  destruct (invalid_calls paused_at_1000 7) as (_ & _ & P3 & _).
  destruct (invalid_calls running_at_1000 1500) as (_ & _ & _ & _ & R5 & _).
  split; [reflexivity |]. split; [reflexivity |].
  split; [exact Reachable_initial |].
  split; [exact Hn1 |]. split; [exact Hn2 |].
  split; [exact (I1 eq_refl) |]. split; [exact (I2 eq_refl) |].
  split; [exact (I4 Reachable_initial eq_refl) |].
  split; [exact (I6 Hn1) |]. split; [exact (I7 Hn2) |].
  split; [reflexivity |]. split; [exact (P3 eq_refl) |].
  split; [exact Hr |]. split; [reflexivity |].
  exact (R5 Hr eq_refl).
Defined.

(** C3 fails as stated: [pause] in the NotStarted state changes the state,
    and so does [resume] in the Running state. *)
Lemma invalid_calls_not_noops :
  (status initial <> Running /\ call pause initial <> initial) /\
  (status running_at_1000 <> Paused /\
   call (resume 1500) running_at_1000 <> running_at_1000).
Proof.
  split; split.
  - vm_compute. discriminate.
  - intros H. apply (f_equal paused) in H. vm_compute in H. discriminate H.
  - vm_compute. discriminate.
  - intros H. apply (f_equal stepStartRef) in H. vm_compute in H.
    discriminate H.
Qed.

Lemma startProcessing_file now a :
  file a <> None ->
  let b := call (startProcessing now) a in
  processing b = true /\ paused b = false /\
  currentStepIndex b = 0%Z /\ stepProgress b = 0 /\ elapsedRef b = 0 /\
  stepStartRef b = now /\ file b = file a.
Proof.
  intros Hf. cbv zeta. unfold call.
  destruct (commit_same_data (deps a) (startProcessing now a))
    as (-> & _ & -> & -> & -> & -> & -> & ->).
  unfold startProcessing. destruct (file a) eqn:E; [simpl | congruence].
  rewrite E. tauto.
Qed.

(** C4, as the code has it.  [startProcessing] tests the file only: without
    a file it returns the state unchanged; with a file it restarts the run
    at stage 0 from every status, Running and Paused included.  What keeps a
    run in progress from being restarted is the Run button, which is
    disabled while [processing] holds. *)
Theorem start_guard (a : App) (now : Q) :
  (file a = None -> call (startProcessing now) a = a) /\
  (file a <> None ->
     let b := call (startProcessing now) a in
     status b = Running /\ currentStepIndex b = 0%Z /\
     stepProgress b = 0 /\ elapsedRef b = 0 /\ stepStartRef b = now) /\
  (status a = Running \/ status a = Paused ->
     click runDisabled (EvStart now) a = a).
Proof.
  split; [| split].
  - intros Hf. apply call_id. now apply startProcessing_no_file.
  - intros Hf. cbv zeta.
    destruct (startProcessing_file now a Hf) as (H1 & H2 & H3 & H4 & H5 & H6 & _).
    split; [apply status_Running; auto | auto].
  - intros H. unfold click, runDisabled.
    assert (Hp : processing a = true).
    { destruct H as [H | H];
        [apply status_Running in H | apply status_Paused in H]; tauto. }
    rewrite Hp. now destruct (file a).
Qed.

Lemma start_guard_witness :
  file initial = None /\ file in_second_step <> None /\
  status in_second_step = Running /\
  call (startProcessing 9000) initial = initial /\
  (let b := call (startProcessing 9000) in_second_step in
   status b = Running /\ currentStepIndex b = 0%Z /\
   stepProgress b = 0 /\ elapsedRef b = 0 /\ stepStartRef b = 9000) /\
  click runDisabled (EvStart 9000) in_second_step = in_second_step.
Proof.
  assert (Hf : file in_second_step <> None) by (vm_compute; discriminate).
  split; [reflexivity |]. split; [exact Hf |]. split; [reflexivity |].
  split; [apply (proj1 (start_guard initial 9000)); reflexivity |].
  split; [apply (proj1 (proj2 (start_guard in_second_step 9000))); exact Hf |].
  apply (proj2 (proj2 (start_guard in_second_step 9000))). left. reflexivity.
Defined.

(** C4 fails as stated: [start] during a run that has reached the second
    stage puts it back to the first. *)
Lemma start_while_running :
  status in_second_step = Running /\
  currentStepIndex in_second_step = 1%Z /\
  currentStepIndex (call (startProcessing 9000) in_second_step) = 0%Z /\
  call (startProcessing 9000) in_second_step <> in_second_step.
Proof.
  split; [reflexivity |]. split; [reflexivity |]. split; [reflexivity |].
  intros H. apply (f_equal currentStepIndex) in H. vm_compute in H.
  discriminate H.
Qed.




(** ** Overall progress *)

Lemma STEP_COUNT_6 : STEP_COUNT = 6%Z.
Proof. reflexivity. Qed.

Lemma overallProgress_normal a :
  overallProgress a ==
  Qmin 100 (Qmax 0 (Qmax 0 (inject_Z (currentStepIndex a)) * (50 # 3)
                    + stepProgress a * (1 # 6))).
Proof.
  unfold overallProgress. cbv zeta.
  apply Q.min_compat; [reflexivity |]. apply Q.max_compat; [reflexivity |].
  unfold Qdiv. change (/ inject_Z STEP_COUNT) with (1 # 6).
  change (/ 100) with (1 # 100). ring.
Qed.

Lemma overallProgress_in_stage a :
  (0 <= currentStepIndex a < STEP_COUNT)%Z ->
  0 <= stepProgress a -> stepProgress a <= 100 ->
  overallProgress a ==
  inject_Z (currentStepIndex a) * (50 # 3) + stepProgress a * (1 # 6).
Proof.
  intros [Hlo Hhi] Hp0 Hp1. rewrite overallProgress_normal.
  rewrite STEP_COUNT_6 in Hhi.
  assert (H0 : 0 <= inject_Z (currentStepIndex a)).
  { change 0 with (inject_Z 0). now rewrite <- Zle_Qle. }
  assert (H5 : inject_Z (currentStepIndex a) <= 5).
  { change 5 with (inject_Z 5). rewrite <- Zle_Qle. lia. }
  rewrite (Q.max_r 0 (inject_Z (currentStepIndex a))) by exact H0.
  rewrite Q.max_r by lra. apply Q.min_r. lra.
Qed.

(** C5.  [overallProgress] is the formula of the specification with [N] the
    number of stages, which is 6.  A stage counts for [100/6] whatever its
    duration: inside stage [i] with stage progress [p] the value is
    [i * (100/6) + (p/100) * (100/6)].  At stage index 1 with stage progress
    0 it is [100/6], between 16.66 and 16.67. *)
Theorem overallProgress_formula (a : App) :
  overallProgress a =
    overallProgress_spec (inject_Z STEP_COUNT) (currentStepIndex a)
      (stepProgress a) /\
  STEP_COUNT = 6%Z /\
  ((0 <= currentStepIndex a < STEP_COUNT)%Z ->
   0 <= stepProgress a <= 100 ->
   overallProgress a ==
   inject_Z (currentStepIndex a) * (100 / 6)
   + (stepProgress a / 100) * (100 / 6)) /\
  (currentStepIndex a = 1%Z -> stepProgress a == 0 ->
   overallProgress a == 100 / 6 /\
   (1666 # 100) < overallProgress a /\ overallProgress a < (1667 # 100)).
Proof.
  split; [reflexivity |]. split; [reflexivity |]. split.
  - intros Hi [Hp0 Hp1]. rewrite overallProgress_in_stage by assumption.
    unfold Qdiv. change (/ 6) with (1 # 6). change (/ 100) with (1 # 100).
    ring.
  - intros Hi Hp.
    assert (H : overallProgress a == 100 / 6).
    { rewrite overallProgress_in_stage.
      - rewrite Hi, Hp. reflexivity.
      - rewrite Hi, STEP_COUNT_6. lia.
      - rewrite Hp. lra.
      - rewrite Hp. lra. }
    rewrite H. split; [reflexivity |]. split; reflexivity.
Qed.

Lemma overallProgress_formula_witness :
  (0 <= currentStepIndex in_second_step < STEP_COUNT)%Z /\
  0 <= stepProgress in_second_step <= 100 /\
  currentStepIndex in_second_step = 1%Z /\
  stepProgress in_second_step == 0 /\
  overallProgress in_second_step ==
    inject_Z (currentStepIndex in_second_step) * (100 / 6)
    + (stepProgress in_second_step / 100) * (100 / 6) /\
  overallProgress in_second_step == 100 / 6 /\
  (1666 # 100) < overallProgress in_second_step /\
  overallProgress in_second_step < (1667 # 100).
Proof.
  assert (Hi : (0 <= currentStepIndex in_second_step < STEP_COUNT)%Z)
    by (split; [vm_compute; discriminate | vm_compute; reflexivity]).
  assert (Hp : 0 <= stepProgress in_second_step <= 100)
    by (vm_compute; split; discriminate).
  assert (H1 : currentStepIndex in_second_step = 1%Z) by reflexivity.
  assert (H0 : stepProgress in_second_step == 0) by reflexivity.
  split; [exact Hi |]. split; [exact Hp |].
  split; [exact H1 |]. split; [exact H0 |].
  split; [exact (proj1 (proj2 (proj2
            (overallProgress_formula in_second_step))) Hi Hp) |].
  exact (proj2 (proj2 (proj2
            (overallProgress_formula in_second_step))) H1 H0).
Defined.

(** ** Part planning *)

Lemma Math_ceil_ge (x : Q) : x <= Math_ceil x.
Proof. apply Qle_ceiling. Qed.

Lemma Math_ceil_pos (x : Q) : 0 < x -> 1 <= Math_ceil x.
Proof.
  intros Hx. unfold Math_ceil.
  assert (H : 0 < inject_Z (Qceiling x))
    by (eapply Qlt_le_trans; [exact Hx | apply Qle_ceiling]).
  change 0 with (inject_Z 0) in H. rewrite <- Zlt_Qlt in H.
  change 1 with (inject_Z 1). rewrite <- Zle_Qle. lia.
Qed.

Lemma Math_ceil_le_Z (x : Q) (n : Z) : x <= inject_Z n -> Math_ceil x <= inject_Z n.
Proof.
  intros H. unfold Math_ceil. rewrite <- Zle_Qle.
  rewrite <- (Qceiling_Z n). now apply Qceiling_resp_le.
Qed.

Lemma Math_ceil_nonpos (x : Q) : x <= 0 -> Math_ceil x <= 0.
Proof. intros H. now apply (Math_ceil_le_Z x 0). Qed.

Lemma div_pos (x d : Q) : 0 < x -> 0 < d -> 0 < x / d.
Proof.
  intros Hx Hd. unfold Qdiv. apply Qmult_lt_0_compat; [exact Hx |].
  now apply Qinv_lt_0_compat.
Qed.

Lemma div_mult_ge (x d c : Q) : 0 < d -> x / d <= c -> x <= d * c.
Proof.
  intros Hd H. apply (Qmult_le_l _ _ d) in H; [| exact Hd].
  rewrite Qmult_div_r in H; [exact H |]. intros E. rewrite E in Hd. lra.
Qed.

Lemma computePartCount_locals_bounds (sizeBytes : Q) :
  1 <= sizeBytes ->
  let plan := computePartCount_locals sizeBytes in
  1 <= snd plan /\ snd plan <= 10000 /\
  sizeBytes <= fst plan * snd plan.
Proof.
  intros Hx. cbv zeta. unfold computePartCount_locals. cbv zeta.
  set (x := sizeBytes) in *.
  assert (Hbase : 0 < 8 * 1024 * 1024) by reflexivity.
  destruct (Qlt_le_dec 10000 (Math_ceil (x / (8 * 1024 * 1024)))) as [Hbig | Hok];
    cbn [fst snd].
  - assert (Hp : 1 <= Math_ceil (x / 10000))
      by (apply Math_ceil_pos, div_pos; lra).
    set (p := Math_ceil (x / 10000)) in *.
    assert (Hxp : x <= p * 10000).
    { rewrite Qmult_comm. apply div_mult_ge; [lra |]. apply Math_ceil_ge. }
    split; [apply Math_ceil_pos, div_pos; lra |]. split.
    + apply (Math_ceil_le_Z _ 10000).
      apply Qle_shift_div_r; [lra |]. change (inject_Z 10000) with 10000.
      lra.
    + apply div_mult_ge; [lra | apply Math_ceil_ge].
  - split; [apply Math_ceil_pos, div_pos; lra |]. split; [exact Hok |].
    apply div_mult_ge; [exact Hbase | apply Math_ceil_ge].
Qed.

(** C7.  For every [sizeBytes >= 1] the count [computePartCount] returns is
    between 1 and 10000, and the part size it ends with, times the count,
    covers [sizeBytes].  For 20000 parts of 8 MiB the count is 10000 with
    parts of 16 MiB. *)
Theorem computePartCount_bounds (sizeBytes : Q) :
  1 <= sizeBytes ->
  let chunkSizeBytes := fst (computePartCount_locals sizeBytes) in
  let chunkCount := computePartCount sizeBytes in
  1 <= chunkCount /\ chunkCount <= 10000 /\
  sizeBytes <= chunkSizeBytes * chunkCount.
Proof.
  intros Hs. exact (computePartCount_locals_bounds sizeBytes Hs).
Qed.

Lemma computePartCount_bounds_witness :
  1 <= 8 * 1024 * 1024 * 20000 /\
  let chunkSizeBytes :=
    fst (computePartCount_locals (8 * 1024 * 1024 * 20000)) in
  let chunkCount := computePartCount (8 * 1024 * 1024 * 20000) in
  1 <= chunkCount /\ chunkCount <= 10000 /\
  8 * 1024 * 1024 * 20000 <= chunkSizeBytes * chunkCount.
Proof.
  assert (H : 1 <= 8 * 1024 * 1024 * 20000) by (vm_compute; discriminate).
  split; [exact H |].
  exact (computePartCount_bounds (8 * 1024 * 1024 * 20000) H).
Defined.

Example computePartCount_20000_parts :
  computePartCount_locals (8 * 1024 * 1024 * 20000) = (16777216, 10000).
Proof. vm_compute. reflexivity. Qed.

Example computePartCount_1KB : computePartCount 1024 = 1.
Proof. vm_compute. reflexivity. Qed.

(** C8, as the code has it.  No division has a zero divisor: every stage of
    the table lasts at least 1 ms (1500 ms in fact), and the step captured by
    every pending [tick] comes from the table; the part planner divides by
    8 MiB, and by [ceil(sizeBytes/10000)] only when that is at least 1.
    [sizeBytes] is not clamped: a size of at least 1 yields at least one
    part, a zero-byte file yields 0 parts. *)
Theorem numeric_edge_cases :
  (forall i s, stepAt i = Some s -> 1 <= durationMs s) /\
  (forall a h cl, Reachable a -> In (h, cl) (frameQueue a) ->
     1 <= durationMs (cl_step cl)) /\
  (forall sizeBytes : Q,
     10000 < Math_ceil (sizeBytes / (8 * 1024 * 1024)) ->
     1 <= Math_ceil (sizeBytes / 10000)) /\
  (forall sizeBytes : Q, 1 <= sizeBytes -> 1 <= computePartCount sizeBytes) /\
  computePartCount 0 == 0.
Proof.
  split; [| split; [| split; [| split]]].
  - intros i s H. apply stepAt_Some in H. lra.
  - intros a h cl Hr Hin. apply Reachable_wf in Hr. destruct Hr as [Hs _ _].
    unfold scheduled_ok in Hs.
    destruct (frameQueue a) as [|[h' cl'] [|]]; [destruct Hin | | tauto].
    destruct Hin as [[= <- <-] | []].
    destruct Hs as (_ & _ & _ & _ & _ & Hst).
    apply stepAt_Some in Hst. lra.
  - intros sizeBytes Hbig. apply Math_ceil_pos, div_pos; [| lra].
    apply Qnot_le_lt. intros Hle.
    assert (H : Math_ceil (sizeBytes / (8 * 1024 * 1024)) <= 0).
    { apply Math_ceil_nonpos. apply Qle_shift_div_r; [reflexivity | lra]. }
    lra.
  - intros sizeBytes Hs.
    exact (proj1 (computePartCount_locals_bounds sizeBytes Hs)).
  - vm_compute. reflexivity.
Qed.

Lemma numeric_edge_cases_witness :
  stepAt 1 = Some (mkStep "transcribe" "Transcribe (Whisper)" 3000) /\
  1 <= 3000 /\
  Reachable started /\
  10000 < Math_ceil (8 * 1024 * 1024 * 20000 / (8 * 1024 * 1024)) /\
  1 <= Math_ceil (8 * 1024 * 1024 * 20000 / 10000) /\
  1 <= 1024 /\ 1 <= computePartCount 1024.
Proof.
  assert (Hr : Reachable started)
    by reachable.
  assert (Hbig : 10000 < Math_ceil (8 * 1024 * 1024 * 20000
                                    / (8 * 1024 * 1024)))
    by (vm_compute; reflexivity).
  assert (Hk : 1 <= 1024) by (vm_compute; discriminate).
  split; [reflexivity |].
  split; [exact (proj1 numeric_edge_cases 1%Z _ eq_refl) |].
  split; [exact Hr |]. split; [exact Hbig |].
  split; [exact (proj1 (proj2 (proj2 numeric_edge_cases)) _ Hbig) |].
  split; [exact Hk |].
  exact (proj1 (proj2 (proj2 (proj2 numeric_edge_cases))) 1024 Hk).
Defined.

(** C8 fails as stated: the size is not clamped, a zero-byte file is planned
    as 0 parts. *)
Lemma zero_byte_file_has_no_part :
  computePartCount_locals 0 = (8 * 1024 * 1024, 0) /\
  computePartCount 0 == 0 /\ ~ 1 <= computePartCount 0.
Proof.
  split; [reflexivity |]. split; [vm_compute; reflexivity |].
  intros H. vm_compute in H. apply H. reflexivity.
Qed.

(** ** Reset *)

(** C9.  From every state the component can reach, [reset] gives status
    NotStarted with [processing] and [paused] false, stage index -1, stage
    progress 0 and elapsed time 0; no animation callback is pending
    afterwards, so a later frame runs no [tick] and changes nothing. *)
Theorem reset_from_any_state (a : App) :
  Reachable a ->
  let b := call reset a in
  status b = NotStarted /\ processing b = false /\ paused b = false /\
  currentStepIndex b = (-1)%Z /\ stepProgress b = 0 /\ elapsedRef b = 0 /\
  frameQueue b = [] /\
  forall now now2, frame now now2 b = b.
Proof.
  intros Hr. cbv zeta. pose proof (Reachable_wf a Hr) as Hwf.
  pose proof (wf_reset a Hwf) as Hwfb.
  assert (Hd : same_data (call reset a) (reset a))
    by apply commit_same_data.
  destruct Hd as (_ & _ & Hp & Hq & Hi & Hs & _ & He).
  destruct (reset_fields a) as (Rp & Rq & Ri & Rs & Re & _).
  rewrite Rp in Hp. rewrite Rq in Hq. rewrite Ri in Hi. rewrite Rs in Hs.
  rewrite Re in He.
  assert (Hfq : frameQueue (call reset a) = [])
    by (apply not_running_idle; auto).
  split; [unfold status; now rewrite Hp, Hi |].
  split; [exact Hp |]. split; [exact Hq |]. split; [exact Hi |].
  split; [exact Hs |]. split; [exact He |]. split; [exact Hfq |].
  intros now now2. now apply frame_idle.
Qed.

Lemma reset_from_any_state_witness :
  Reachable running_at_1000 /\
  frameQueue running_at_1000 <> [] /\
  let b := call reset running_at_1000 in
  status b = NotStarted /\ processing b = false /\ paused b = false /\
  currentStepIndex b = (-1)%Z /\ stepProgress b = 0 /\ elapsedRef b = 0 /\
  frameQueue b = [] /\
  forall now now2, frame now now2 b = b.
Proof.
  assert (Hr : Reachable running_at_1000)
    by reachable.
  split; [exact Hr |]. split; [vm_compute; discriminate |].
  exact (reset_from_any_state running_at_1000 Hr).
Defined.

(** ** Overall progress along a run *)

Lemma overallProgress_mono_progress a b :
  currentStepIndex a = currentStepIndex b ->
  stepProgress a <= stepProgress b ->
  overallProgress a <= overallProgress b.
Proof.
  intros Hi Hp. rewrite !overallProgress_normal, Hi.
  apply Q.min_le_compat_l, Q.max_le_compat_l. lra.
Qed.

Lemma overallProgress_advance a b :
  (0 <= currentStepIndex a)%Z ->
  currentStepIndex b = (currentStepIndex a + 1)%Z ->
  stepProgress a <= 100 -> 0 <= stepProgress b ->
  overallProgress a <= overallProgress b.
Proof.
  intros H0 Hi Ha Hb. rewrite !overallProgress_normal, Hi.
  assert (Hq : 0 <= inject_Z (currentStepIndex a))
    by (change 0 with (inject_Z 0); now rewrite <- Zle_Qle).
  rewrite inject_Z_plus. change (inject_Z 1) with 1.
  rewrite (Q.max_r 0 (inject_Z (currentStepIndex a))) by exact Hq.
  rewrite (Q.max_r 0 (inject_Z (currentStepIndex a) + 1)) by lra.
  apply Q.min_le_compat_l, Q.max_le_compat_l. lra.
Qed.

Lemma overallProgress_started a :
  currentStepIndex a = 0%Z -> stepProgress a == 0 -> overallProgress a == 0.
Proof.
  intros Hi Hp. rewrite overallProgress_in_stage.
  - rewrite Hi, Hp. reflexivity.
  - rewrite Hi, STEP_COUNT_6. lia.
  - rewrite Hp. lra.
  - rewrite Hp. lra.
Qed.

(** Only a completed run shows 100. *)
Lemma overallProgress_100 a :
  wf a -> overallProgress a == 100 -> status a = Completed.
Proof.
  intros [_ Hp Hi] H. rewrite overallProgress_normal in H. unfold status.
  destruct (processing a) eqn:Hpr.
  - exfalso. destruct (Hp Hpr) as (s & Hs & Heq & Hlt).
    apply stepAt_Some in Hs. destruct Hs as [[Hlo Hhi] _].
    rewrite STEP_COUNT_6 in Hhi.
    assert (H0 : 0 <= inject_Z (currentStepIndex a))
      by (change 0 with (inject_Z 0); now rewrite <- Zle_Qle).
    assert (H5 : inject_Z (currentStepIndex a) <= 5)
      by (change 5 with (inject_Z 5); rewrite <- Zle_Qle; lia).
    rewrite (Q.max_r 0 (inject_Z (currentStepIndex a))) in H by exact H0.
    set (v := inject_Z (currentStepIndex a) * (50 # 3) + stepProgress a * (1 # 6)) in H.
    assert (Hv : v < 100) by (unfold v; lra).
    destruct (Q.max_spec 0 v) as [[_ E] | [_ E]]; rewrite E in H.
    + rewrite Q.min_r in H by lra. lra.
    + rewrite Q.min_r in H by lra. lra.
  - destruct (Hi Hpr) as [[Hidx Hs] | [Hidx Hs]]; rewrite Hidx.
    + exfalso. rewrite Hidx, Hs in H. vm_compute in H. discriminate H.
    + reflexivity.
Qed.

(** One frame never lowers the overall progress when the clock does not run
    backward; [T] bounds the readings taken so far. *)
Lemma frame_monotone T now now2 a :
  wf a ->
  (processing a = true -> stepStartRef a + elapsedRef a <= T) ->
  T <= now -> now <= now2 ->
  let b := frame now now2 a in
  overallProgress a <= overallProgress b /\
  (processing b = true -> stepStartRef b + elapsedRef b <= now2).
Proof.
  intros Hwf HT Hnow Hnow2. cbv zeta.
  destruct (processing a) eqn:Hp.
  2:{ rewrite frame_idle by (apply not_running_idle; auto).
      split; [apply Qle_refl | congruence]. }
  destruct (paused a) eqn:Hq.
  1:{ rewrite frame_idle by (apply not_running_idle; auto).
      split; [apply Qle_refl |]. intros _. specialize (HT eq_refl). lra. }
  specialize (HT eq_refl).
  destruct (wf_progress a Hwf Hp) as (s & Hs & Heq & Hlt).
  destruct (frame_running now now2 a Hwf Hp Hq) as (s' & Hs' & HA & HB & HC).
  rewrite Hs in Hs'. injection Hs' as <-. cbv zeta in *.
  pose proof (stepAt_positive _ _ Hs) as Hd.
  pose proof (stepAt_Some _ _ Hs) as [[Hlo Hhi] _].
  set (pct := Qmin 100 ((now - stepStartRef a) / durationMs s * 100)) in *.
  assert (Hmono : stepProgress a <= pct).
  { rewrite Heq. unfold pct. apply Q.min_le_compat_l.
    apply Qmult_le_compat_r; [| lra].
    apply Qmult_le_compat_r; [lra |].
    apply Qlt_le_weak, Qinv_lt_0_compat, Hd. }
  destruct (Qlt_le_dec pct 100) as [Hlt100 | Hge100].
  - destruct (HA Hlt100) as (H1 & H2 & H3 & H4 & H5 & H6). split.
    + apply overallProgress_mono_progress; [congruence | now rewrite H5].
    + intros _. rewrite H4, H6. lra.
  - destruct (Z_lt_le_dec (currentStepIndex a + 1) STEP_COUNT) as [Hn | Hl].
    + destruct (HB Hge100 Hn) as (H1 & H2 & H3 & H4 & H5 & H6). split.
      * apply overallProgress_advance; [exact Hlo | exact H3 | lra |].
        rewrite H5. lra.
      * intros _. rewrite H4, H6. lra.
    + destruct (HC Hge100 Hl) as (H1 & H2 & H3 & H4 & H5 & H6). split.
      * apply overallProgress_mono_progress; [congruence | now rewrite H5].
      * congruence.
Qed.

Lemma trace_head ts a : exists l, trace ts a = a :: l.
Proof. destruct ts; simpl; eauto. Qed.

Lemma trace_monotone ts :
  forall T a, wf a ->
    (processing a = true -> stepStartRef a + elapsedRef a <= T) ->
    clock_ok T ts ->
    Sorted Qle (map overallProgress (trace ts a)) /\ Forall wf (trace ts a).
Proof.
  induction ts as [|[now now2] ts IH]; intros T a Hwf HT Hc; simpl.
  - split; [repeat constructor | constructor; [exact Hwf | constructor]].
  - simpl in Hc. destruct Hc as (H1 & H2 & Hc).
    destruct (frame_monotone T now now2 a Hwf HT H1 H2) as [Hle Hb].
    destruct (IH now2 (frame now now2 a) (wf_frame now now2 a Hwf) Hb Hc)
      as [Hsorted Hall].
    split; [| constructor; assumption].
    constructor; [exact Hsorted |].
    destruct (trace_head ts (frame now now2 a)) as [l ->]. simpl.
    constructor. exact Hle.
Qed.

(** C6.  In a run started by [start] at clock reading [t0] and driven by
    frames whose clock readings never decrease, [overallProgress] is 0 right
    after the start, never decreases from one tick to the next, and is 100
    only in states whose status is Completed. *)
Theorem overallProgress_run (a : App) (t0 : Q) (ts : list (Q * Q)) :
  Reachable a -> file a <> None -> clock_ok t0 ts ->
  let a0 := call (startProcessing t0) a in
  overallProgress a0 == 0 /\
  Sorted Qle (map overallProgress (trace ts a0)) /\
  (forall b, In b (trace ts a0) ->
     overallProgress b == 100 -> status b = Completed).
Proof.
  intros Hr Hf Hc. cbv zeta. pose proof (Reachable_wf a Hr) as Hwf.
  destruct (startProcessing_file t0 a Hf) as (H1 & H2 & H3 & H4 & H5 & H6 & _).
  pose proof (wf_startProcessing t0 a Hwf) as Hwf0.
  destruct (trace_monotone ts t0 _ Hwf0) as [Hsorted Hall].
  { intros _. rewrite H5, H6. lra. }
  { exact Hc. }
  split; [apply overallProgress_started; [exact H3 | now rewrite H4] |].
  split; [exact Hsorted |].
  intros b Hin. apply overallProgress_100.
  rewrite Forall_forall in Hall. now apply Hall.
Qed.

Lemma overallProgress_run_witness :
  Reachable selected /\ file selected <> None /\ clock_ok 0 full_run /\
  let a0 := call (startProcessing 0) selected in
  overallProgress a0 == 0 /\
  Sorted Qle (map overallProgress (trace full_run a0)) /\
  (forall b, In b (trace full_run a0) ->
     overallProgress b == 100 -> status b = Completed).
Proof.
  assert (Hr : Reachable selected)
    by reachable.
  assert (Hf : file selected <> None) by (vm_compute; discriminate).
  assert (Hc : clock_ok 0 full_run)
    by (vm_compute; repeat (split; [discriminate |]); exact I).
  split; [exact Hr |]. split; [exact Hf |]. split; [exact Hc |].
  exact (overallProgress_run selected 0 full_run Hr Hf Hc).
Defined.

Example full_run_progress :
  map (fun b => (status b, currentStepIndex b, Qred (overallProgress b)))
      (trace full_run (call (startProcessing 0) selected)) =
  [ (Running, 0%Z, 0); (Running, 0%Z, 25 # 3); (Running, 1%Z, 50 # 3);
    (Running, 2%Z, 100 # 3); (Running, 3%Z, 50); (Running, 4%Z, 200 # 3);
    (Running, 5%Z, 250 # 3); (Running, 5%Z, 4249 # 45);
    (Completed, 5%Z, 100) ].
Proof. vm_compute. reflexivity. Qed.

(** ** Status and the per-step status shown to the user *)

Lemma status_stepStatus a :
  Reachable a ->
  stepStatus a (currentStepIndex a) =
  match status a with
  | NotStarted => "idle"
  | Running => "active"
  | Paused => "paused"
  | Completed => "done"
  end.
Proof.
  intros Hr. apply Reachable_wf in Hr. destruct Hr as [_ Hp Hi].
  unfold stepStatus, status. rewrite Z.ltb_irrefl, Z.eqb_refl.
  destruct (processing a) eqn:Hpr.
  - destruct (Hp Hpr) as (s & Hs & _). apply stepAt_Some in Hs.
    destruct (Z.eqb_spec (currentStepIndex a) (-1)); [lia |].
    now destruct (paused a).
  - destruct (Z.eqb_spec (currentStepIndex a) (-1)); reflexivity.
Qed.

(** * Further properties of the pipeline *)

(** ** Scheduling *)

(** X2.  In every reachable state at most one animation callback is
    pending.  While the status is Running exactly one is, it is the one whose
    handle [timerRef] holds and it captured the current step; in every other
    status none is. *)
Theorem one_callback_per_run (a : App) :
  Reachable a ->
  (List.length (frameQueue a) <= 1)%nat /\
  (status a = Running ->
     exists h s, stepAt (currentStepIndex a) = Some s /\
       frameQueue a = [(h, mkTick (currentStepIndex a) s)] /\
       timerRef a = Some h) /\
  (status a <> Running -> frameQueue a = []).
Proof.
  intros Hr. pose proof (Reachable_wf a Hr) as Hwf.
  pose proof (wf_sched a Hwf) as Hs. unfold scheduled_ok in Hs.
  destruct (frameQueue a) as [|[h [i s]] [|]] eqn:Hq; [| | tauto].
  - split; [simpl; lia |]. split; [| reflexivity].
    intros Hst. apply status_Running in Hst. destruct Hst as [Hp Hpa].
    rewrite (Hs Hp) in Hpa. discriminate.
  - destruct Hs as (Htr & _ & Hp & Hpa & Hi & Hst). simpl in Hi, Hst. subst i.
    split; [simpl; lia |]. split.
    + intros _. exists h, s. auto.
    + intros Hn. exfalso. apply Hn. apply status_Running. auto.
Qed.

Lemma one_callback_per_run_witness :
  Reachable running_at_1000 /\ status running_at_1000 = Running /\
  Reachable paused_at_1000 /\ status paused_at_1000 <> Running /\
  (exists h s, stepAt (currentStepIndex running_at_1000) = Some s /\
     frameQueue running_at_1000 =
       [(h, mkTick (currentStepIndex running_at_1000) s)] /\
     timerRef running_at_1000 = Some h) /\
  frameQueue paused_at_1000 = [].
Proof.
  assert (Hr : Reachable running_at_1000) by reachable.
  assert (Hp : Reachable paused_at_1000) by reachable.
  assert (Hn : status paused_at_1000 <> Running) by (vm_compute; discriminate).
  split; [exact Hr |]. split; [reflexivity |].
  split; [exact Hp |]. split; [exact Hn |].
  split.
  - exact (proj1 (proj2 (one_callback_per_run running_at_1000 Hr)) eq_refl).
  - exact (proj2 (proj2 (one_callback_per_run paused_at_1000 Hp)) Hn).
Defined.

(** X4.  While the status is not Running (NotStarted, Paused or Completed)
    frames change nothing, however many arrive and whatever the clock
    reads: every state along the trace is the state it started from. *)
Theorem frames_without_run (a : App) (ts : list (Q * Q)) :
  Reachable a -> status a <> Running ->
  Forall (fun b => b = a) (trace ts a).
Proof.
  intros Hr Hn.
  assert (Hq : frameQueue a = []).
  { pose proof (Reachable_wf a Hr) as Hwf. apply not_running_idle; [exact Hwf |].
    destruct (status_cases a) as [H | [H | [H _]]]; [congruence | | auto].
    apply status_Paused in H. tauto. }
  induction ts as [|[now now2] ts IH]; simpl.
  - repeat constructor.
  - constructor; [reflexivity |]. now rewrite frame_idle.
Qed.

Lemma frames_without_run_witness :
  Reachable paused_at_1000 /\ status paused_at_1000 <> Running /\
  Forall (fun b => b = paused_at_1000) (trace full_run paused_at_1000).
Proof.
  assert (Hp : Reachable paused_at_1000) by reachable.
  assert (Hn : status paused_at_1000 <> Running) by (vm_compute; discriminate).
  split; [exact Hp |]. split; [exact Hn |].
  exact (frames_without_run paused_at_1000 full_run Hp Hn).
Defined.

(** ** State invariants *)

(** X3.  In every reachable state the stage index and the stage progress
    agree with the status: NotStarted has index -1 and progress 0; Running
    and Paused have an index inside the table and a progress below 100 equal
    to [min(100, elapsed / duration * 100)] for the current stage; Completed
    has the last index and progress 100. *)
Theorem status_invariants (a : App) :
  Reachable a ->
  match status a with
  | NotStarted => currentStepIndex a = (-1)%Z /\ stepProgress a == 0
  | Running | Paused =>
      exists s, stepAt (currentStepIndex a) = Some s /\
        (0 <= currentStepIndex a < STEP_COUNT)%Z /\
        stepProgress a == Qmin 100 (elapsedRef a / durationMs s * 100) /\
        stepProgress a < 100
  | Completed =>
      currentStepIndex a = (STEP_COUNT - 1)%Z /\ stepProgress a == 100 /\
      overallProgress a == 100
  end.
Proof.
  intros Hr. pose proof (Reachable_wf a Hr) as [_ Hp Hi].
  unfold status. destruct (processing a) eqn:Hpr.
  - destruct (Hp Hpr) as (s & Hs & Heq & Hlt).
    pose proof (stepAt_Some _ _ Hs) as [Hb _].
    destruct (paused a); exists s; auto.
  - destruct (Hi Hpr) as [[Hidx Hs] | [Hidx Hs]]; rewrite Hidx.
    + simpl. auto.
    + change ((STEP_COUNT - 1 =? -1)%Z) with false. cbv iota.
      split; [reflexivity |]. split; [exact Hs |].
      rewrite overallProgress_in_stage.
      * rewrite Hidx, Hs. reflexivity.
      * rewrite Hidx, STEP_COUNT_6. lia.
      * rewrite Hs. lra.
      * rewrite Hs. lra.
Qed.

Lemma status_invariants_witness :
  Reachable completed_run /\ status completed_run = Completed /\
  currentStepIndex completed_run = (STEP_COUNT - 1)%Z /\
  stepProgress completed_run == 100 /\ overallProgress completed_run == 100.
Proof.
  assert (Hr : Reachable completed_run) by reachable.
  assert (Hst : status completed_run = Completed) by (vm_compute; reflexivity).
  split; [exact Hr |]. split; [exact Hst |].
  pose proof (status_invariants completed_run Hr) as H.
  rewrite Hst in H. exact H.
Defined.

(** ** Stage progression *)


(** X6.  A frame never skips a stage and never goes back: in every
    reachable state it leaves the stage index where it is or moves it to the
    next stage, however late the frame comes; when it moves, the new stage
    starts from progress 0 and elapsed time 0 at the clock reading taken at
    that moment, so the time by which the frame overshot the finished stage
    is not carried over. *)
Theorem frame_advances_one_stage (a : App) (now now2 : Q) :
  Reachable a ->
  let b := frame now now2 a in
  currentStepIndex b = currentStepIndex a \/
  (currentStepIndex b = (currentStepIndex a + 1)%Z /\
   status b = Running /\ stepProgress b = 0 /\ elapsedRef b = 0 /\
   stepStartRef b = now2).
Proof.
  intros Hr. cbv zeta. pose proof (Reachable_wf a Hr) as Hwf.
  destruct (status_cases a) as [H | [H | [H _]]].
  - apply status_Running in H. destruct H as [Hp Hq].
    destruct (frame_running now now2 a Hwf Hp Hq) as (s & Hs & HA & HB & HC).
    cbv zeta in *.
    destruct (Qlt_le_dec (Qmin 100 ((now - stepStartRef a) / durationMs s * 100)) 100)
      as [Hlt | Hge].
    + left. now destruct (HA Hlt) as (_ & _ & H3 & _).
    + destruct (Z_lt_le_dec (currentStepIndex a + 1) STEP_COUNT) as [Hn | Hl].
      * right. destruct (HB Hge Hn) as (H1 & H2 & H3 & H4 & H5 & H6).
        split; [exact H3 |]. split; [apply status_Running; auto | auto].
      * left. now destruct (HC Hge Hl) as (_ & _ & H3 & _).
  - left. rewrite frame_idle; [reflexivity |].
    apply not_running_idle; [exact Hwf |]. apply status_Paused in H. tauto.
  - left. rewrite frame_idle; [reflexivity |].
    apply not_running_idle; auto.
Qed.

Lemma frame_advances_one_stage_witness :
  Reachable started /\
  let b := frame 3600000 3600001 started in
  currentStepIndex b = currentStepIndex started \/
  (currentStepIndex b = (currentStepIndex started + 1)%Z /\
   status b = Running /\ stepProgress b = 0 /\ elapsedRef b = 0 /\
   stepStartRef b = 3600001).
Proof.
  assert (Hr : Reachable started) by reachable.
  split; [exact Hr |].
  exact (frame_advances_one_stage started 3600000 3600001 Hr).
Defined.

Example late_frame_moves_one_stage :
  let b := frame 3600000 3600001 started in
  currentStepIndex started = 0%Z /\ currentStepIndex b = 1%Z /\
  elapsedRef b == 0 /\ stepStartRef b == 3600001.
Proof. vm_compute. repeat split; reflexivity. Qed.



(** ** Clock that never runs backward *)

Lemma clock_inv_later t t' a : t <= t' -> clock_inv t a -> clock_inv t' a.
Proof.
  intros Ht (H1 & H2 & H3). split; [exact H1 |]. split; [exact H2 |].
  intros Hp. specialize (H3 Hp). lra.
Qed.

Lemma clock_inv_same_data t a b :
  same_data b a -> clock_inv t a -> clock_inv t b.
Proof.
  unfold same_data, clock_inv.
  intros (_ & _ & -> & _ & _ & -> & -> & ->). tauto.
Qed.

Lemma clock_inv_call t (h : App -> App) a :
  clock_inv t (h a) -> clock_inv t (call h a).
Proof. apply clock_inv_same_data. apply commit_same_data. Qed.

Lemma clock_inv_frame t now now2 a :
  wf a -> clock_inv t a -> t <= now -> now <= now2 ->
  clock_inv now2 (frame now now2 a).
Proof.
  intros Hwf HJ Hnow Hnow2. pose proof HJ as (He & Hsp & HT).
  destruct (processing a) eqn:Hp.
  2:{ rewrite frame_idle by (apply not_running_idle; auto).
      apply (clock_inv_later t); [lra | exact HJ]. }
  destruct (paused a) eqn:Hq.
  1:{ rewrite frame_idle by (apply not_running_idle; auto).
      apply (clock_inv_later t); [lra | exact HJ]. }
  specialize (HT eq_refl).
  destruct (frame_running now now2 a Hwf Hp Hq) as (s & Hs & HA & HB & HC).
  cbv zeta in *. pose proof (stepAt_positive _ _ Hs) as Hd.
  assert (He' : 0 <= now - stepStartRef a) by lra.
  assert (Hpct : 0 <= Qmin 100 ((now - stepStartRef a) / durationMs s * 100)).
  { apply Q.min_glb; [lra |].
    apply Qmult_le_0_compat; [| lra].
    apply Qle_shift_div_l; [exact Hd | lra]. }
  unfold clock_inv.
  destruct (Qlt_le_dec (Qmin 100 ((now - stepStartRef a) / durationMs s * 100)) 100)
    as [Hlt | Hge].
  - destruct (HA Hlt) as (H1 & H2 & H3 & H4 & H5 & H6).
    rewrite H4, H5, H6. split; [exact He' |]. split; [exact Hpct |].
    intros _. lra.
  - destruct (Z_lt_le_dec (currentStepIndex a + 1) STEP_COUNT) as [Hn | Hl].
    + destruct (HB Hge Hn) as (H1 & H2 & H3 & H4 & H5 & H6).
      rewrite H4, H5, H6. split; [lra |]. split; [lra |]. intros _. lra.
    + destruct (HC Hge Hl) as (H1 & H2 & H3 & H4 & H5 & H6).
      rewrite H1, H4, H5. split; [exact He' |]. split; [exact Hpct |].
      discriminate.
Qed.

Lemma clock_inv_dispatch t e a :
  wf a -> clock_inv t a -> nondecreasing_from t (readings e) ->
  clock_inv (clock_after t e) (dispatch e a).
Proof.
  intros Hwf HJ Hc. pose proof HJ as (He & Hsp & HT).
  destruct e as [now | | now | | picked | now now2];
    unfold clock_after; simpl in *.
  - destruct Hc as [Hnow _]. apply clock_inv_call. unfold startProcessing.
    destruct (file a).
    + unfold clock_inv. simpl. split; [lra |]. split; [lra |]. intros _. lra.
    + apply (clock_inv_later t); assumption.
  - apply clock_inv_call. exact HJ.
  - destruct Hc as [Hnow _]. apply clock_inv_call. unfold resume.
    destruct (processing a) eqn:Hp; simpl.
    + unfold clock_inv. simpl. split; [exact He |]. split; [exact Hsp |].
      intros _. lra.
    + apply (clock_inv_later t); assumption.
  - apply clock_inv_call.
    destruct (reset_fields a) as (H1 & _ & _ & H4 & H5 & _).
    unfold clock_inv. rewrite H1, H4, H5. split; [lra |]. split; [lra |].
    discriminate.
  - apply clock_inv_call. unfold handleFile.
    destruct (reset_fields (set_file (Some picked) a)) as (H1 & _ & _ & H4 & H5 & _).
    unfold clock_inv. rewrite H1, H4, H5. split; [lra |]. split; [lra |].
    discriminate.
  - destruct Hc as (H1 & H2 & _). now apply (clock_inv_frame t).
Qed.

Lemma last_default (x : Q) (l : list Q) (d d' : Q) :
  last (x :: l) d = last (x :: l) d'.
Proof.
  revert x. induction l as [|y l IH]; intros x; [reflexivity |].
  change (last (y :: l) d = last (y :: l) d'). apply IH.
Qed.

Lemma nondecreasing_from_app t l1 l2 :
  nondecreasing_from t (l1 ++ l2) ->
  nondecreasing_from t l1 /\ nondecreasing_from (last l1 t) l2.
Proof.
  revert t. induction l1 as [|x l1 IH]; intros t H; [simpl in *; tauto |].
  destruct H as [Hx H]. destruct (IH x H) as [H1 H2].
  split; [simpl; tauto |]. destruct l1 as [|y l1]; [exact H2 |].
  change (nondecreasing_from (last (y :: l1) t) l2).
  now rewrite (last_default y l1 t x).
Qed.

Lemma clock_inv_run es :
  forall t a, wf a -> clock_inv t a ->
    nondecreasing_from t (flat_map readings es) ->
    exists t', clock_inv t' (run es a).
Proof.
  induction es as [|e es IH]; intros t a Hwf HJ Hc; simpl.
  - eauto.
  - simpl in Hc. apply nondecreasing_from_app in Hc. destruct Hc as [Hc1 Hc2].
    apply (IH (clock_after t e)).
    + now apply wf_dispatch.
    + now apply clock_inv_dispatch.
    + exact Hc2.
Qed.

(** X7.  When the clock never runs backward, whatever the user does (start,
    pause, resume, reset, file selection, in any order and any state) and
    whenever the frames come, the elapsed time of the stage is never
    negative and the stage progress stays between 0 and 100. *)
Theorem progress_within_bounds (es : list Event) (t0 : Q) :
  nondecreasing_from t0 (flat_map readings es) ->
  let a := run es initial in
  0 <= elapsedRef a /\ 0 <= stepProgress a /\ stepProgress a <= 100.
Proof.
  intros Hc. cbv zeta.
  destruct (clock_inv_run es t0 initial wf_initial) as (t' & He & Hs & _).
  { unfold clock_inv. simpl. split; [lra |]. split; [lra |]. discriminate. }
  { exact Hc. }
  split; [exact He |]. split; [exact Hs |].
  assert (Hwf : wf (run es initial))
    by (apply Reachable_wf, Reachable_run, Reachable_initial).
  destruct Hwf as [_ Hp Hi]. destruct (processing (run es initial)) eqn:Hpr.
  - destruct (Hp Hpr) as (s & _ & _ & Hlt). lra.
  - destruct (Hi Hpr) as [[_ H] | [_ H]]; rewrite H; lra.
Qed.

Lemma progress_within_bounds_witness :
  nondecreasing_from 0
    (flat_map readings
       [EvSelectFile video; EvStart 10; EvFrame 500 500; EvPause;
        EvResume 9000; EvFrame 9700 9700; EvFrame 11000 11001]) /\
  let a := run [EvSelectFile video; EvStart 10; EvFrame 500 500; EvPause;
                EvResume 9000; EvFrame 9700 9700; EvFrame 11000 11001]
               initial in
  0 <= elapsedRef a /\ 0 <= stepProgress a /\ stepProgress a <= 100.
Proof.
  assert (Hc : nondecreasing_from 0
    (flat_map readings
       [EvSelectFile video; EvStart 10; EvFrame 500 500; EvPause;
        EvResume 9000; EvFrame 9700 9700; EvFrame 11000 11001]))
    by (vm_compute; repeat (split; [discriminate |]); exact I).
  split; [exact Hc |].
  exact (progress_within_bounds _ 0 Hc).
Defined.

(** A clock that runs backward can make the progress negative. *)
Example backward_clock_negative_progress :
  stepProgress (run [EvSelectFile video; EvStart 1000; EvFrame 900 900] initial)
  == -5.
Proof. vm_compute. reflexivity. Qed.

(** ** Time spent paused *)



Example paused_minute_not_counted :
  let c := frame 60500 60500 (call (resume 60000) paused_at_1000) in
  elapsedRef c == 1500 /\ stepProgress c == 75.
Proof. vm_compute. split; reflexivity. Qed.

(** ** File selection *)




(** ** What the panel shows *)

(** X5.  What [stepStatus] shows for step [index] of the table in a
    reachable state: every step is idle before a run and done after it;
    during a run the steps before the current one are done, those after it
    are pending, and the current one alone is active, or paused while the
    run is paused. *)
Theorem stepStatus_display (a : App) (index : Z) :
  Reachable a -> (0 <= index < STEP_COUNT)%Z ->
  stepStatus a index =
  match status a with
  | NotStarted => "idle"
  | Completed => "done"
  | Running =>
      if (index <? currentStepIndex a)%Z then "done"
      else if (index =? currentStepIndex a)%Z then "active" else "pending"
  | Paused =>
      if (index <? currentStepIndex a)%Z then "done"
      else if (index =? currentStepIndex a)%Z then "paused" else "pending"
  end.
Proof.
  intros Hr Hidx. pose proof (Reachable_wf a Hr) as [_ Hp Hi].
  unfold stepStatus, status. destruct (processing a) eqn:Hpr.
  - destruct (Hp Hpr) as (s & Hs & _). apply stepAt_Some in Hs.
    destruct (Z.eqb_spec (currentStepIndex a) (-1)); [lia |].
    destruct (paused a); reflexivity.
  - destruct (Hi Hpr) as [[H _] | [H _]]; rewrite H.
    + reflexivity.
    + change ((STEP_COUNT - 1 =? -1)%Z) with false. cbv iota.
      destruct (Z.ltb_spec index (STEP_COUNT - 1)); [reflexivity |].
      destruct (Z.eqb_spec index (STEP_COUNT - 1)); [reflexivity | lia].
Qed.

Lemma stepStatus_display_witness :
  Reachable paused_at_1000 /\ (0 <= 0 < STEP_COUNT)%Z /\
  (0 <= 3 < STEP_COUNT)%Z /\
  stepStatus paused_at_1000 0 = "paused" /\
  stepStatus paused_at_1000 3 = "pending".
Proof.
  assert (Hr : Reachable paused_at_1000) by reachable.
  assert (H0 : (0 <= 0 < STEP_COUNT)%Z)
    by (split; [vm_compute; discriminate | vm_compute; reflexivity]).
  assert (H3 : (0 <= 3 < STEP_COUNT)%Z)
    by (split; [vm_compute; discriminate | vm_compute; reflexivity]).
  split; [exact Hr |]. split; [exact H0 |]. split; [exact H3 |].
  split.
  - exact (stepStatus_display paused_at_1000 0 Hr H0).
  - exact (stepStatus_display paused_at_1000 3 Hr H3).
Defined.

Lemma Math_round_bounds (x : Q) (lo hi : Z) :
  inject_Z lo <= x -> x <= inject_Z hi ->
  exists n : Z, Math_round x = inject_Z n /\ (lo <= n <= hi)%Z.
Proof.
  intros Hlo Hhi. unfold Math_round. eexists. split; [reflexivity |].
  split.
  - rewrite <- (Qfloor_Z lo). apply Qfloor_resp_le. lra.
  - assert (H : (Qfloor (x + (1 # 2)) < hi + 1)%Z).
    { rewrite Zlt_Qlt. eapply Qle_lt_trans; [apply Qfloor_le |].
      rewrite inject_Z_plus. change (inject_Z 1) with 1. lra. }
    lia.
Qed.

(** X1.  In every state whatsoever [overallProgress] lies between 0 and 100,
    and the label under the overall bar, [Math.round(overallProgress)], is a
    whole number between 0 and 100. *)
Theorem progressLabel_bounds (a : App) :
  0 <= overallProgress a /\ overallProgress a <= 100 /\
  exists n : Z, progressLabel a = inject_Z n /\ (0 <= n <= 100)%Z.
Proof.
  assert (H0 : 0 <= overallProgress a).
  { unfold overallProgress. cbv zeta. apply Q.min_glb; [lra |].
    apply Q.le_max_l. }
  assert (H1 : overallProgress a <= 100).
  { unfold overallProgress. cbv zeta. apply Q.le_min_l. }
  split; [exact H0 |]. split; [exact H1 |].
  apply Math_round_bounds; assumption.
Qed.

(** * Part planning and upload initiation *)

(** ** Part size *)

Lemma Math_ceil_tight (x : Q) : Math_ceil x - 1 < x.
Proof.
  unfold Math_ceil. pose proof (Qceiling_lt x) as H.
  unfold Z.sub in H. rewrite inject_Z_plus, inject_Z_opp in H.
  change (inject_Z 1) with 1 in H. lra.
Qed.

Lemma Math_ceil_gt (x : Q) (n : Z) : inject_Z n < Math_ceil x -> inject_Z n < x.
Proof.
  intros H. apply Qnot_le_lt. intros Hle.
  apply (Math_ceil_le_Z x n) in Hle. lra.
Qed.

Lemma mult_div_lt (x d c : Q) : 0 < d -> c < x / d -> d * c < x.
Proof.
  intros Hd H. apply (Qmult_lt_l _ _ d) in H; [| exact Hd].
  rewrite Qmult_div_r in H; [exact H |]. intros E. rewrite E in Hd. lra.
Qed.

(** X11.  For every [sizeBytes >= 1], with the part size and the count that
    [computePartCount] ends with: the part size is never below 8 MiB; the
    last part is not empty (one part fewer would not cover the size); up to
    10000 parts of 8 MiB the part size stays 8 MiB and the count is
    [ceil(sizeBytes / 8 MiB)]; beyond, the part size is
    [ceil(sizeBytes / 10000)], above 8 MiB. *)
Theorem part_size_fits (sizeBytes : Q) :
  1 <= sizeBytes ->
  let partSize := fst (computePartCount_locals sizeBytes) in
  let count := computePartCount sizeBytes in
  8 * 1024 * 1024 <= partSize /\
  partSize * (count - 1) < sizeBytes /\
  (sizeBytes <= 8 * 1024 * 1024 * 10000 ->
     partSize = 8 * 1024 * 1024 /\
     count = Math_ceil (sizeBytes / (8 * 1024 * 1024))) /\
  (8 * 1024 * 1024 * 10000 < sizeBytes ->
     partSize = Math_ceil (sizeBytes / 10000) /\
     8 * 1024 * 1024 < partSize).
Proof.
  intros Hx. cbv zeta. unfold computePartCount, computePartCount_locals.
  cbv zeta.
  assert (Hbase : 0 < 8 * 1024 * 1024) by reflexivity.
  destruct (Qlt_le_dec 10000 (Math_ceil (sizeBytes / (8 * 1024 * 1024))))
    as [Hbig | Hok]; cbn [fst snd].
  - assert (Hsz : 8 * 1024 * 1024 * 10000 < sizeBytes).
    { apply (Math_ceil_gt _ 10000) in Hbig. change (inject_Z 10000) with 10000 in Hbig.
      apply mult_div_lt in Hbig; [lra | exact Hbase]. }
    assert (Hp : 8 * 1024 * 1024 < Math_ceil (sizeBytes / 10000)).
    { eapply Qlt_le_trans; [| apply Math_ceil_ge].
      apply Qlt_shift_div_l; [reflexivity | lra]. }
    split; [lra |]. split.
    + apply mult_div_lt; [lra | apply Math_ceil_tight].
    + split; [intros H; lra | intros _; split; [reflexivity | exact Hp]].
  - split; [lra |]. split.
    + apply mult_div_lt; [exact Hbase | apply Math_ceil_tight].
    + split; [intros _; split; reflexivity |].
      intros Hsz. exfalso.
      assert (H : sizeBytes / (8 * 1024 * 1024) <= 10000).
      { eapply Qle_trans; [apply Math_ceil_ge | exact Hok]. }
      apply div_mult_ge in H; [lra | exact Hbase].
Qed.

Lemma part_size_fits_witness :
  1 <= 8 * 1024 * 1024 * 10000 + 1 /\
  8 * 1024 * 1024 * 10000 < 8 * 1024 * 1024 * 10000 + 1 /\
  let partSize :=
    fst (computePartCount_locals (8 * 1024 * 1024 * 10000 + 1)) in
  let count := computePartCount (8 * 1024 * 1024 * 10000 + 1) in
  8 * 1024 * 1024 <= partSize /\
  partSize * (count - 1) < 8 * 1024 * 1024 * 10000 + 1 /\
  partSize = Math_ceil ((8 * 1024 * 1024 * 10000 + 1) / 10000) /\
  8 * 1024 * 1024 < partSize.
Proof.
  assert (H1 : 1 <= 8 * 1024 * 1024 * 10000 + 1) by (vm_compute; discriminate).
  assert (H2 : 8 * 1024 * 1024 * 10000 < 8 * 1024 * 1024 * 10000 + 1)
    by (vm_compute; reflexivity).
  split; [exact H1 |]. split; [exact H2 |].
  destruct (part_size_fits (8 * 1024 * 1024 * 10000 + 1) H1)
    as (P1 & P2 & _ & P4).
  exact (conj P1 (conj P2 (P4 H2))).
Defined.

Example one_byte_over_the_limit :
  computePartCount_locals (8 * 1024 * 1024 * 10000 + 1) = (8388609, 10000).
Proof. vm_compute. reflexivity. Qed.

(** ** Base URL *)

Lemma replace_trailing_slash_app (s : string) :
  replace_trailing_slash (s ++ "/")%string = s.
Proof.
  induction s as [|c r IH]; [reflexivity |].
  change ((String c r ++ "/")%string) with (String c (r ++ "/")%string).
  simpl. destruct (r ++ "/")%string eqn:E.
  - destruct r; discriminate E.
  - now rewrite IH.
Qed.

Lemma replace_trailing_slash_noop (s : string) :
  (forall t, s <> (t ++ "/")%string) -> replace_trailing_slash s = s.
Proof.
  induction s as [|c r IH]; intros H; [reflexivity |].
  simpl. destruct r as [|c' r'].
  - destruct (Ascii.eqb_spec c "/"%char) as [-> | _]; [| reflexivity].
    exfalso. apply (H EmptyString). reflexivity.
  - rewrite IH; [reflexivity |].
    intros t E. apply (H (String c t)). simpl. now rewrite E.
Qed.

(** X12.  The base URL loses exactly one trailing slash: a configured base
    [e/] gives [e], and a base without a trailing slash is kept as it is, so
    both spellings lead to the same endpoint; the page origin is used, with
    the same rule, when the variable is unset or empty. *)
Theorem BASE_URL_normalised (e origin : string) :
  BASE_URL (Some (e ++ "/")%string) origin = e /\
  BASE_URL None (origin ++ "/")%string = origin /\
  BASE_URL (Some EmptyString) (origin ++ "/")%string = origin /\
  ((forall t, origin <> (t ++ "/")%string) -> BASE_URL None origin = origin) /\
  (e <> EmptyString -> (forall t, e <> (t ++ "/")%string) ->
     BASE_URL (Some e) origin = e /\
     primaryUrl (BASE_URL (Some (e ++ "/")%string) origin)
     = primaryUrl (BASE_URL (Some e) origin)).
Proof.
  assert (H1 : BASE_URL (Some (e ++ "/")%string) origin = e).
  { unfold BASE_URL. destruct (e ++ "/")%string eqn:E.
    - destruct e; discriminate E.
    - rewrite <- E. apply replace_trailing_slash_app. }
  split; [exact H1 |].
  split; [apply replace_trailing_slash_app |].
  split; [apply replace_trailing_slash_app |].
  split; [apply replace_trailing_slash_noop |].
  intros Hne Hns.
  assert (H2 : BASE_URL (Some e) origin = e).
  { unfold BASE_URL. destruct e as [|c r]; [congruence |].
    now apply replace_trailing_slash_noop. }
  split; [exact H2 |]. now rewrite H1, H2.
Qed.

Lemma BASE_URL_normalised_witness :
  "http://localhost:8080" <> EmptyString /\
  (forall t, "http://localhost:8080" <> (t ++ "/")%string) /\
  BASE_URL (Some "http://localhost:8080") "https://app.example" =
    "http://localhost:8080" /\
  primaryUrl (BASE_URL (Some "http://localhost:8080/") "https://app.example")
  = primaryUrl (BASE_URL (Some "http://localhost:8080") "https://app.example").
Proof.
  assert (Hne : "http://localhost:8080" <> EmptyString) by discriminate.
  assert (Hns : forall t, "http://localhost:8080" <> (t ++ "/")%string).
  { intros t E.
    assert (H : replace_trailing_slash "http://localhost:8080" = t)
      by (rewrite E; apply replace_trailing_slash_app).
    vm_compute in H. subst t. vm_compute in E. discriminate E. }
  split; [exact Hne |]. split; [exact Hns |].
  exact (proj2 (proj2 (proj2 (proj2
           (BASE_URL_normalised "http://localhost:8080" "https://app.example"))))
           Hne Hns).
Defined.

Example only_one_slash_removed :
  BASE_URL (Some "http://localhost:8080//") "https://app.example"
  = "http://localhost:8080/".
Proof. reflexivity. Qed.

(** ** Upload initiation *)

(** X13.  The other path is tried after a 404 on the primary path and in
    no other case.  After a 404 the result is the one the second response
    gives by itself.  When the primary response is accepted, or refused
    with another status, or when the request fails, the result is the one
    of that primary answer, and two networks that agree on the primary
    request lead to the same result whatever they would answer elsewhere. *)
Theorem fallback_only_on_404 (BASE : string)
    (fetch fetch' : Request -> Outcome Response) (pickedFile : File) :
  let primary := post (primaryUrl BASE) (initiate_body pickedFile) in
  let alt := post (altUrl BASE) (initiate_body pickedFile) in
  (forall res, fetch primary = Resolved res ->
     res_ok res = false -> res_status res = 404%Z ->
     initiateUpload_try BASE fetch pickedFile =
       (res2 <- fetch alt ;; response_result res2)) /\
  (forall res, fetch primary = Resolved res ->
     res_ok res = true \/ res_status res <> 404%Z ->
     initiateUpload_try BASE fetch pickedFile = response_result res) /\
  (forall e, fetch primary = Rejected e ->
     initiateUpload_try BASE fetch pickedFile = Rejected e) /\
  (fetch primary = fetch' primary ->
   (forall res, fetch primary = Resolved res ->
      res_ok res = true \/ res_status res <> 404%Z) ->
   initiateUpload_try BASE fetch pickedFile =
   initiateUpload_try BASE fetch' pickedFile).
Proof.
  cbv zeta.
  assert (Hres : forall r : Response,
    (res <- (if negb (res_ok r) then
               text <- res_text r ;;
               Rejected (Some ("Initiate failed " ++ number_text (res_status r)
                               ++ ": " ++ text)%string)
             else Resolved r) ;;
     data <- res_json res ;; Resolved data) = response_result r).
  { intros r. unfold response_result. destruct (res_ok r); simpl.
    - destruct (res_json r); reflexivity.
    - destruct (res_text r); reflexivity. }
  assert (H404 : forall f res,
    f (post (primaryUrl BASE) (initiate_body pickedFile)) = Resolved res ->
    res_ok res = false -> res_status res = 404%Z ->
    initiateUpload_try BASE f pickedFile =
      (res2 <- f (post (altUrl BASE) (initiate_body pickedFile)) ;;
       response_result res2)).
  { intros f res Hf Hok Hst. unfold initiateUpload_try. cbv zeta.
    rewrite Hf. simpl. rewrite Hok, Hst. simpl.
    destruct (f (post (altUrl BASE) (initiate_body pickedFile))) as [r2 | e];
      [| reflexivity].
    simpl. apply Hres. }
  assert (Hother : forall f res,
    f (post (primaryUrl BASE) (initiate_body pickedFile)) = Resolved res ->
    res_ok res = true \/ res_status res <> 404%Z ->
    initiateUpload_try BASE f pickedFile = response_result res).
  { intros f res Hf Hc. unfold initiateUpload_try. cbv zeta.
    rewrite Hf. simpl. rewrite <- Hres.
    destruct (res_ok res) eqn:Hok; simpl; [reflexivity |].
    destruct Hc as [Hc | Hc]; [discriminate |].
    apply Z.eqb_neq in Hc. rewrite Hc. simpl. rewrite Hok. reflexivity. }
  assert (Hrej : forall f e,
    f (post (primaryUrl BASE) (initiate_body pickedFile)) = Rejected e ->
    initiateUpload_try BASE f pickedFile = Rejected e).
  { intros f e Hf. unfold initiateUpload_try. cbv zeta. now rewrite Hf. }
  split; [apply H404 |]. split; [apply Hother |]. split; [apply Hrej |].
  intros Hsame Hc.
  destruct (fetch (post (primaryUrl BASE) (initiate_body pickedFile)))
    as [res | e] eqn:Hf.
  - rewrite (Hother fetch res Hf (Hc res eq_refl)).
    symmetry. apply Hother; [now rewrite <- Hsame | exact (Hc res eq_refl)].
  - rewrite (Hrej fetch e Hf). symmetry. apply Hrej. now rewrite <- Hsame.
Qed.

Lemma fallback_only_on_404_witness :
  let primary :=
    post (primaryUrl "http://localhost:8080") (initiate_body video) in
  let alt := post (altUrl "http://localhost:8080") (initiate_body video) in
  found_on_alt primary =
    Resolved (mkResponse false 404 (Resolved "Not Found") (Rejected None)) /\
  initiateUpload_try "http://localhost:8080" found_on_alt video =
    (res2 <- found_on_alt alt ;; response_result res2) /\
  server_error primary =
    Resolved (mkResponse false 500 (Resolved "boom") (Rejected None)) /\
  initiateUpload_try "http://localhost:8080" server_error video =
    response_result (mkResponse false 500 (Resolved "boom") (Rejected None)).
Proof.
  cbv zeta.
  assert (H1 : found_on_alt
                 (post (primaryUrl "http://localhost:8080") (initiate_body video))
               = Resolved (mkResponse false 404 (Resolved "Not Found")
                             (Rejected None)))
    by (vm_compute; reflexivity).
  assert (H2 : server_error
                 (post (primaryUrl "http://localhost:8080") (initiate_body video))
               = Resolved (mkResponse false 500 (Resolved "boom")
                             (Rejected None)))
    by reflexivity.
  destruct (fallback_only_on_404 "http://localhost:8080" found_on_alt
              found_on_alt video) as (F1 & _).
  destruct (fallback_only_on_404 "http://localhost:8080" server_error
              server_error video) as (_ & S2 & _).
  split; [exact H1 |].
  split; [exact (F1 _ H1 eq_refl eq_refl) |].
  split; [exact H2 |].
  refine (S2 _ H2 _). right. discriminate.
Defined.

Example upload_found_on_alt :
  initiateUpload "http://localhost:8080" found_on_alt video (selected, None)
  = (selected, Some (json_value "{}")).
Proof. vm_compute. reflexivity. Qed.

Example upload_server_error :
  let c := initiateUpload "http://localhost:8080" server_error video
             (selected, Some (json_value "old")) in
  snd c = None /\
  errorMessage (fst c) =
    "Failed to initiate upload: Initiate failed 500: boom".
Proof. vm_compute. split; reflexivity. Qed.

(** X14.  [initiateUpload] ends in one of two ways: [uploadInit] holds the
    parsed response and nothing else changed, or [uploadInit] is cleared and
    the error banner reads "Failed to initiate upload: " followed by a
    non-empty message.  Either way the pipeline is left alone: selected
    file, run flags, stage index, progress, timing references and pending
    callback are what they were, and so are the status and the overall
    progress. *)
Theorem initiateUpload_outcome (BASE : string)
    (fetch : Request -> Outcome Response) (pickedFile : File) (c : Component) :
  let c' := initiateUpload BASE fetch pickedFile c in
  ((exists data, snd c' = Some data /\ fst c' = fst c) \/
   (snd c' = None /\
    exists m, m <> EmptyString /\
      errorMessage (fst c') = ("Failed to initiate upload: " ++ m)%string)) /\
  file (fst c') = file (fst c) /\
  processing (fst c') = processing (fst c) /\
  paused (fst c') = paused (fst c) /\
  currentStepIndex (fst c') = currentStepIndex (fst c) /\
  stepProgress (fst c') = stepProgress (fst c) /\
  stepStartRef (fst c') = stepStartRef (fst c) /\
  elapsedRef (fst c') = elapsedRef (fst c) /\
  timerRef (fst c') = timerRef (fst c) /\
  frameQueue (fst c') = frameQueue (fst c) /\
  status (fst c') = status (fst c) /\
  overallProgress (fst c') = overallProgress (fst c).
Proof.
  cbv zeta. unfold initiateUpload, initiateUpload_settle.
  destruct (initiateUpload_try BASE fetch pickedFile) as [data | err]; simpl.
  - split; [left; eauto |]. tauto.
  - split; [| tauto].
    right. split; [reflexivity |].
    destruct err as [[|ch r] |]; eexists; (split; [| reflexivity]);
      discriminate.
Qed.

(** X15.  The request announces a content type in every case (the file's
    own, or [application/octet-stream] when it has none) and, for every
    file of at least one byte, a part count between 1 and 10000; an empty
    file is announced with 0 parts. *)
Theorem initiate_body_parts (pickedFile : File) :
  let body := initiate_body pickedFile in
  fileName body = name pickedFile /\
  contentType body <> EmptyString /\
  (type pickedFile <> EmptyString -> contentType body = type pickedFile) /\
  ((1 <= size pickedFile)%Z -> 1 <= partCount body /\ partCount body <= 10000) /\
  (size pickedFile = 0%Z -> partCount body == 0).
Proof.
  cbv zeta. unfold initiate_body. cbv zeta. simpl.
  split; [reflexivity |]. split; [destruct (type pickedFile); discriminate |].
  split; [destruct (type pickedFile); congruence |]. split.
  - intros Hs.
    assert (Hq : 1 <= inject_Z (size pickedFile))
      by (change 1 with (inject_Z 1); now rewrite <- Zle_Qle).
    destruct (computePartCount_locals_bounds _ Hq) as (H1 & H2 & _).
    split; assumption.
  - intros ->. vm_compute. reflexivity.
Qed.

Lemma initiate_body_parts_witness :
  type video <> EmptyString /\ (1 <= size video)%Z /\
  contentType (initiate_body video) = type video /\
  1 <= partCount (initiate_body video) /\
  partCount (initiate_body video) <= 10000.
Proof.
  assert (Ht : type video <> EmptyString) by discriminate.
  assert (Hs : (1 <= size video)%Z) by (vm_compute; discriminate).
  destruct (initiate_body_parts video) as (_ & _ & B3 & B4 & _).
  split; [exact Ht |]. split; [exact Hs |].
  split; [exact (B3 Ht) |]. exact (B4 Hs).
Defined.

(** ** Duration of a run *)






